(** * valentines/src/main.js: gesture-driven particle morphing

    A shallow embedding of the gesture classifier ([hands.onResults]), the
    shape generator ([createTextPoints], [initShapes]), the morph loop
    ([animate]) and the resize listener, followed by the properties the
    design document states about them.

    Numbers.  JavaScript numbers are IEEE-754 doubles (and [posArray] is a
    [Float32Array]).  They are idealised here as real numbers: every
    arithmetic operation of the source is the corresponding exact operation
    on [R], and [Math.acos], [Math.sqrt], [Math.sin], [Math.cos], [Math.tan]
    and [Math.PI] are the functions and the constant of the standard
    library of reals.  Rounding is therefore not part of the model.
    Array indices and counts are natural numbers.

    Effects.  The script's globals live in one record, [World]; every
    function of the script is a computation in a state-and-exception monad
    over it, so that a [TypeError] raised half-way leaves the writes made
    before it in place, as in the source.

    External collaborators (the canvas rasteriser, [Math.random], the user
    agent test) are the fields of [Env].  The material colour and size
    updates of [animate] touch none of the state in [World]; they are
    modelled on their own, as [updateMaterial].  The renderer calls are
    left out. *)

From Stdlib Require Import String Reals Lra Lia Arith Bool ZArith List.
Import ListNotations.
Open Scope R_scope.

(* ===================================================================== *)
(** * Fragments of the JavaScript runtime *)
(* ===================================================================== *)

Module Js.

(** Values that can be thrown: the runtime's [TypeError] (reading a
    property of [undefined]) and an [Error] built by a [throw] statement. *)
Inductive Error : Type :=
| TypeError
| UserError (message : string).

Inductive Completion (A : Type) : Type :=
| Normal (a : A)
| Throw (e : Error).
Arguments Normal {A} a.
Arguments Throw {A} e.

(** [a < b] on numbers. *)
Definition lt (a b : R) : bool := if Rlt_dec a b then true else false.

(** [i % m] on non-negative integers; [None] is [NaN], the value of
    [i % 0]. *)
Definition rem (i m : nat) : option nat :=
  if Nat.eqb m 0 then None else Some (i mod m).

(** [arr[k]] where [k] is a number: [undefined] ([None]) when [k] is
    [NaN] or not an index of [arr]. *)
Definition index {A : Type} (arr : list A) (k : option nat) : option A :=
  match k with
  | Some n => nth_error arr n
  | None => None
  end.

(** Reading a property (or calling a method) of a value that may be
    [undefined]. *)
Definition member {A : Type} (o : option A) : Completion A :=
  match o with
  | Some a => Normal a
  | None => Throw TypeError
  end.

(** [arr[k] = v] on a typed array: a store outside the array is dropped. *)
Fixpoint store {A : Type} (arr : list A) (k : nat) (v : A) : list A :=
  match arr, k with
  | [], _ => []
  | _ :: tl, O => v :: tl
  | hd :: tl, S k' => hd :: store tl k' v
  end.

(** [arr[k] += d]: the element is read, [f] applied, the result stored.
    Outside the array the read gives [undefined], the sum is [NaN] and the
    store is dropped, so the array is unchanged. *)
Definition update {A : Type} (arr : list A) (k : nat) (f : A -> A) : list A :=
  match nth_error arr k with
  | Some v => store arr k (f v)
  | None => arr
  end.

End Js.

(* ===================================================================== *)
(** * Fragments of three.js *)
(* ===================================================================== *)

Module Vector3.

Record t : Type := mk { x : R; y : R; z : R }.

Definition zero : t := mk 0 0 0.

(** [v.lerp(w, alpha)], in three.js [this.x += (w.x - this.x) * alpha] and
    likewise for y and z. *)
Definition lerp (v w : t) (alpha : R) : t :=
  mk (x v + (x w - x v) * alpha)
     (y v + (y w - y v) * alpha)
     (z v + (z w - z v) * alpha).

(** [v.setFromSphericalCoords(radius, phi, theta)]. *)
Definition setFromSphericalCoords (radius phi theta : R) : t :=
  let sinPhiRadius := sin phi * radius in
  mk (sinPhiRadius * sin theta) (cos phi * radius) (sinPhiRadius * cos theta).

Definition lengthSq (v : t) : R := x v * x v + y v * y v + z v * z v.

(** [v.length()]. *)
Definition length (v : t) : R := sqrt (lengthSq v).

(** [v.distanceTo(w)]. *)
Definition distanceTo (v w : t) : R :=
  sqrt ((x v - x w) * (x v - x w) + (y v - y w) * (y v - y w)
        + (z v - z w) * (z v - z w)).

End Vector3.

Module MathUtils.
Definition degToRad (degrees : R) : R := degrees * (PI / 180).
End MathUtils.

(* ===================================================================== *)
(** * Configuration and global state *)
(* ===================================================================== *)

(** What the script takes from its host. *)
Record Env : Type := mkEnv {
  (** [/iPhone|iPad|iPod|Android/i.test(navigator.userAgent)] *)
  isMobile : bool;
  (** the [data] of [ctx.getImageData(0, 0, 512, 128)] after
      [ctx.fillText(text, 256, 64)]: RGBA bytes, row by row *)
  fillText : string -> list Z;
  (** the successive values of [Math.random()] *)
  random : nat -> R
}.

Definition PARTICLE_COUNT (env : Env) : nat :=
  if isMobile env then (8 * 1000)%nat else (15 * 1000)%nat.
Definition SMOOTHING : R := 0.08.
Definition ELASTICITY : R := 0.05.

Inductive Gesture : Type := none | peace | rock | like | fist | detected.

Record Camera : Type := mkCamera {
  fov : R;
  aspect : R;
  camera_position_z : R
}.

Record Shapes : Type := mkShapes {
  willYouPoints : list Vector3.t;
  beMyPoints : list Vector3.t;
  valentinesPoints : list Vector3.t;
  saturnPoints : list Vector3.t;
  randomPoints : list Vector3.t
}.

Record World : Type := mkWorld {
  camera : Camera;
  (** how many times [Math.random()] has been called *)
  draws : nat;
  shapes : Shapes;
  (** [posArray], three numbers per particle *)
  posArray : list R;
  (** [particleSystem.position] *)
  position : Vector3.t;
  currentGesture : Gesture;
  time : R;
  handDisplacement : Vector3.t
}.

(** Field assignments. *)
Definition set_camera (c : Camera) (w : World) : World :=
  mkWorld c (draws w) (shapes w) (posArray w) (position w)
          (currentGesture w) (time w) (handDisplacement w).
Definition set_draws (n : nat) (w : World) : World :=
  mkWorld (camera w) n (shapes w) (posArray w) (position w)
          (currentGesture w) (time w) (handDisplacement w).
Definition set_shapes (s : Shapes) (w : World) : World :=
  mkWorld (camera w) (draws w) s (posArray w) (position w)
          (currentGesture w) (time w) (handDisplacement w).
Definition set_posArray (a : list R) (w : World) : World :=
  mkWorld (camera w) (draws w) (shapes w) a (position w)
          (currentGesture w) (time w) (handDisplacement w).
Definition set_position (v : Vector3.t) (w : World) : World :=
  mkWorld (camera w) (draws w) (shapes w) (posArray w) v
          (currentGesture w) (time w) (handDisplacement w).
Definition set_currentGesture (g : Gesture) (w : World) : World :=
  mkWorld (camera w) (draws w) (shapes w) (posArray w) (position w)
          g (time w) (handDisplacement w).
Definition set_time (t : R) (w : World) : World :=
  mkWorld (camera w) (draws w) (shapes w) (posArray w) (position w)
          (currentGesture w) t (handDisplacement w).
Definition set_handDisplacement (v : Vector3.t) (w : World) : World :=
  mkWorld (camera w) (draws w) (shapes w) (posArray w) (position w)
          (currentGesture w) (time w) v.

Definition set_willYouPoints (l : list Vector3.t) (s : Shapes) : Shapes :=
  mkShapes l (beMyPoints s) (valentinesPoints s) (saturnPoints s) (randomPoints s).
Definition set_beMyPoints (l : list Vector3.t) (s : Shapes) : Shapes :=
  mkShapes (willYouPoints s) l (valentinesPoints s) (saturnPoints s) (randomPoints s).
Definition set_valentinesPoints (l : list Vector3.t) (s : Shapes) : Shapes :=
  mkShapes (willYouPoints s) (beMyPoints s) l (saturnPoints s) (randomPoints s).
Definition set_saturnPoints (l : list Vector3.t) (s : Shapes) : Shapes :=
  mkShapes (willYouPoints s) (beMyPoints s) (valentinesPoints s) l (randomPoints s).
Definition set_randomPoints (l : list Vector3.t) (s : Shapes) : Shapes :=
  mkShapes (willYouPoints s) (beMyPoints s) (valentinesPoints s) (saturnPoints s) l.

(* ===================================================================== *)
(** * The monad of the script: global state and exceptions *)
(* ===================================================================== *)

(** A computation runs on a world and ends normally with a value or
    abruptly with a thrown error; either way it leaves a world behind. *)
Definition M (A : Type) : Type := World -> Js.Completion A * World.

Definition ret {A : Type} (a : A) : M A := fun w => (Js.Normal a, w).

Definition bind {A B : Type} (m : M A) (k : A -> M B) : M B :=
  fun w =>
    match m w with
    | (Js.Normal a, w') => k a w'
    | (Js.Throw e, w') => (Js.Throw e, w')
    end.

Definition get : M World := fun w => (Js.Normal w, w).
Definition modify (f : World -> World) : M unit := fun w => (Js.Normal tt, f w).

(** A step of the runtime that may throw but does not touch the globals. *)
Definition lift {A : Type} (c : Js.Completion A) : M A := fun w => (c, w).

Declare Scope script_scope.
Delimit Scope script_scope with script.
Notation "x <- m ;; k" := (bind m (fun x => k))
  (at level 61, m at next level, right associativity) : script_scope.
Notation "m ;; k" := (bind m (fun _ => k))
  (at level 61, right associativity) : script_scope.
Open Scope script_scope.

(** [for (const a of l) body(a)] *)
Fixpoint forEach {A : Type} (l : list A) (body : A -> M unit) : M unit :=
  match l with
  | [] => ret tt
  | a :: l' => body a ;; forEach l' body
  end.

(** [Array.from({ length: n }, (_, i) => f(i))]: the callback runs for
    [i = start, start + 1, ...], [n] times, in order; a throw ends it. *)
Fixpoint Array_from_at {A : Type} (start n : nat) (f : nat -> M A) : M (list A) :=
  match n with
  | O => ret []
  | S n' =>
      a <- f start ;;
      rest <- Array_from_at (S start) n' f ;;
      ret (a :: rest)
  end.

Definition Array_from {A : Type} (n : nat) (f : nat -> M A) : M (list A) :=
  Array_from_at 0 n f.

(** [Math.random()]: the next value of the host's sequence. *)
Definition Math_random (env : Env) : M R :=
  w <- get ;;
  modify (set_draws (S (draws w))) ;;
  ret (random env (draws w)).

(* ===================================================================== *)
(** * Shape generator *)
(* ===================================================================== *)

(** [getResponsiveScale()] *)
Definition getResponsiveScale : M R :=
  w <- get ;;
  let vFOV := MathUtils.degToRad (fov (camera w)) in
  let height := 2 * tan (vFOV / 2) * camera_position_z (camera w) in
  let width := height * aspect (camera w) in
  ret ((width / 512) * 0.8).

(** The values taken by [i] in [for (let i = 0; i < stop; i += 2)]. *)
Definition stride2 (stop : nat) : list nat :=
  map (fun k => (2 * k)%nat) (seq 0 ((stop + 1) / 2)).

(** [imageData[(y * 512 + x) * 4] > 128]; a read outside the data is
    [undefined], and [undefined > 128] is false. *)
Definition isForeground (imageData : list Z) (x y : nat) : bool :=
  match nth_error imageData ((y * 512 + x) * 4) with
  | Some red => (128 <? red)%Z
  | None => false
  end.

(** The body of the inner loop of [createTextPoints]. *)
Definition scanPixel (imageData : list Z) (scale : R) (y : nat)
    (points : list Vector3.t) (x : nat) : list Vector3.t :=
  if isForeground imageData x y
  then points ++ [Vector3.mk ((INR x - 256) * scale) ((64 - INR y) * scale) 0]
  else points.

(** The two nested loops of [createTextPoints]: the foreground samples,
    in the order they are pushed. *)
Definition scanImage (imageData : list Z) (scale : R) : list Vector3.t :=
  fold_left
    (fun points y => fold_left (scanPixel imageData scale y) (stride2 512) points)
    (stride2 128) [].

(** The callback of the final [Array.from]:
    [points[i % points.length].clone()]. *)
Definition cyclePoint (points : list Vector3.t) (i : nat) : Js.Completion Vector3.t :=
  Js.member (Js.index points (Js.rem i (length points))).

(** [createTextPoints(text, count)] *)
Definition createTextPoints (env : Env) (text : string) (count : nat)
    : M (list Vector3.t) :=
  let imageData := fillText env text in
  scale <- getResponsiveScale ;;
  let points := scanImage imageData scale in
  Array_from count (fun i => lift (cyclePoint points i)).

(** The callback that builds [randomPoints]. *)
Definition randomPoint (env : Env) : M Vector3.t :=
  a <- Math_random env ;;
  b <- Math_random env ;;
  c <- Math_random env ;;
  ret (Vector3.mk ((a - 0.5) * 60) ((b - 0.5) * 60) ((c - 0.5) * 60)).

(** The callback that builds [saturnPoints]. *)
Definition saturnPoint (env : Env) (i : nat) : M Vector3.t :=
  let s := if isMobile env then 0.6 else 1.0 in
  if Js.lt (INR i) (INR (PARTICLE_COUNT env) * 0.4) then
    let phi := acos (-1 + (2 * INR i) / (INR (PARTICLE_COUNT env) * 0.4)) in
    let theta := sqrt (INR (PARTICLE_COUNT env) * 0.4 * PI) * phi in
    ret (Vector3.setFromSphericalCoords (15 * s) phi theta)
  else
    angle <- (r <- Math_random env ;; ret (r * PI * 2)) ;;
    radius <- (r <- Math_random env ;; ret ((20 + r * 6) * s)) ;;
    jitter <- Math_random env ;;
    ret (Vector3.mk (cos angle * radius) ((jitter - 0.5) * 0.6) (sin angle * radius)).

Definition assign (f : Shapes -> Shapes) : M unit :=
  modify (fun w => set_shapes (f (shapes w)) w).

(** [initShapes()] *)
Definition initShapes (env : Env) : M unit :=
  scale <- getResponsiveScale ;;
  l <- createTextPoints env "WILL YOU" (PARTICLE_COUNT env) ;;
  assign (set_willYouPoints l) ;;
  l <- createTextPoints env "BE MY" (PARTICLE_COUNT env) ;;
  assign (set_beMyPoints l) ;;
  l <- createTextPoints env "VALENTINE?" (PARTICLE_COUNT env) ;;
  assign (set_valentinesPoints l) ;;
  l <- Array_from (PARTICLE_COUNT env) (fun _ => randomPoint env) ;;
  assign (set_randomPoints l) ;;
  l <- Array_from (PARTICLE_COUNT env) (saturnPoint env) ;;
  assign (set_saturnPoints l).

(* ===================================================================== *)
(** * Gesture classifier *)
(* ===================================================================== *)

(** One normalised landmark of the hand tracker. *)
Record Landmark : Type := mkLandmark { lm_x : R; lm_y : R; lm_z : R }.

(** The argument of the [onResults] callback: [multiHandLandmarks] is
    absent ([None]) or an array with one landmark array per hand. *)
Record Results : Type := mkResults {
  multiHandLandmarks : option (list (list Landmark))
}.

(** [lm[k]] followed by a property read: throws when [lm[k]] is
    [undefined]. *)
Definition landmark (lm : list Landmark) (k : nat) : M Landmark :=
  lift (Js.member (nth_error lm k)).

(** The [if ... else if ...] chain of lines 162-166. *)
Definition classify (indexUp middleUp pinkyUp thumbUp : bool) : Gesture :=
  if indexUp && middleUp && negb pinkyUp then peace
  else if indexUp && pinkyUp && negb middleUp then rock
  else if thumbUp && negb indexUp && negb middleUp then like
  else if negb indexUp && negb middleUp && negb pinkyUp then fist
  else detected.

(** The callback given to [hands.onResults]. *)
Definition onResults (results : Results) : M unit :=
  match multiHandLandmarks results with
  | Some (lm :: _) =>
      wrist <- landmark lm 0 ;;
      modify (fun w => set_handDisplacement
        (Vector3.mk ((lm_x wrist - 0.5) * -40)
                    (Vector3.y (handDisplacement w))
                    (Vector3.z (handDisplacement w))) w) ;;
      wrist <- landmark lm 0 ;;
      modify (fun w => set_handDisplacement
        (Vector3.mk (Vector3.x (handDisplacement w))
                    ((0.5 - lm_y wrist) * 30)
                    (Vector3.z (handDisplacement w))) w) ;;
      a <- landmark lm 8 ;; b <- landmark lm 6 ;;
      let indexUp := Js.lt (lm_y a) (lm_y b) in
      a <- landmark lm 12 ;; b <- landmark lm 10 ;;
      let middleUp := Js.lt (lm_y a) (lm_y b) in
      a <- landmark lm 20 ;; b <- landmark lm 18 ;;
      let pinkyUp := Js.lt (lm_y a) (lm_y b) in
      a <- landmark lm 4 ;; b <- landmark lm 2 ;;
      let thumbUp := Js.lt (lm_y a) (lm_y b) in
      modify (set_currentGesture (classify indexUp middleUp pinkyUp thumbUp))
  | _ =>
      modify (set_currentGesture none) ;;
      modify (fun w => set_handDisplacement
        (Vector3.lerp (handDisplacement w) (Vector3.mk 0 0 0) 0.05) w)
  end.

(* ===================================================================== *)
(** * Morph loop *)
(* ===================================================================== *)

(** The [targetSet] local of [animate]: [null] ([None]) unless the gesture
    selects a shape. *)
Definition selectTarget (w : World) : option (list Vector3.t) :=
  match currentGesture w with
  | fist => Some (saturnPoints (shapes w))
  | peace => Some (willYouPoints (shapes w))
  | rock => Some (beMyPoints (shapes w))
  | like => Some (valentinesPoints (shapes w))
  | none | detected => None
  end.

(** [positions[k] += (c - positions[k]) * SMOOTHING + drift] *)
Definition approach (c drift : R) (k : nat) : M unit :=
  modify (fun w =>
    set_posArray
      (Js.update (posArray w) k (fun p => p + ((c - p) * SMOOTHING + drift))) w).

(** The body of the particle loop of [animate]. *)
Definition moveParticle (targetSet : option (list Vector3.t)) (i : nat) : M unit :=
  w <- get ;;
  let i3 := (i * 3)%nat in
  let t :=
    match targetSet with
    | Some set => nth_error set i
    | None => nth_error (randomPoints (shapes w)) i
    end in
  let drift :=
    match targetSet with
    | Some _ => 0
    | None => sin (time w + INR i) * 0.04
    end in
  c <- lift (Js.member t) ;;
  approach (Vector3.x c) drift i3 ;;
  c <- lift (Js.member t) ;;
  approach (Vector3.y c) drift (i3 + 1) ;;
  c <- lift (Js.member t) ;;
  approach (Vector3.z c) drift (i3 + 2).

(** [animate()], one rendered frame. *)
Definition animate (env : Env) : M unit :=
  modify (fun w => set_time (time w + 0.01) w) ;;
  w <- get ;;
  let targetSet := selectTarget w in
  modify (fun w =>
    set_position (Vector3.lerp (position w) (handDisplacement w) ELASTICITY) w) ;;
  forEach (seq 0 (PARTICLE_COUNT env)) (moveParticle targetSet).

(* ===================================================================== *)
(** * The script as a whole: start-up and events *)
(* ===================================================================== *)

(** The listener of the window's [resize] event; [newAspect] is
    [window.innerWidth / window.innerHeight] at that moment. *)
Definition onResize (env : Env) (newAspect : R) : M unit :=
  modify (fun w => set_camera
    (mkCamera (fov (camera w)) newAspect (camera_position_z (camera w))) w) ;;
  initShapes env.

(** The globals before [initShapes()] first runs: the camera is set up,
    the five point sets are still unassigned (empty here, and never read
    in that state) and [posArray] is not yet allocated. *)
Definition preWorld (aspect0 : R) : World :=
  mkWorld (mkCamera 75 aspect0 35) 0 (mkShapes [] [] [] [] [])
          [] (Vector3.mk 0 0 0) none 0 (Vector3.mk 0 0 0).

(** The top level of the script, in source order: [initShapes()], the
    allocation of [posArray] (a zero-filled [Float32Array]) and the first
    call of [animate()]. *)
Definition main (env : Env) : M unit :=
  initShapes env ;;
  modify (set_posArray (repeat 0 (PARTICLE_COUNT env * 3))) ;;
  animate env.

Inductive Event : Type :=
| LandmarkFrame (results : Results)
| AnimationFrame
| Resize (newAspect : R).

Definition handle (env : Env) (e : Event) : M unit :=
  match e with
  | LandmarkFrame results => onResults results
  | AnimationFrame => animate env
  | Resize newAspect => onResize env newAspect
  end.

(** The world an event leaves behind, whether its handler returned or
    threw. *)
Definition step (env : Env) (w : World) (e : Event) : World :=
  snd (handle env e w).

Definition run (env : Env) (w : World) (es : list Event) : World :=
  fold_left (step env) es w.

(** The worlds the running script can be in: the script loaded without
    throwing, then any events were delivered. *)
Inductive reachable (env : Env) : World -> Prop :=
| reachable_main : forall aspect0 w,
    main env (preWorld aspect0) = (Js.Normal tt, w) -> reachable env w
| reachable_step : forall w e,
    reachable env w -> reachable env (step env w e).

(* ===================================================================== *)
(** * The material updates of [animate] *)
(* ===================================================================== *)

(** A three.js colour: three channels. *)
Module Color.

Record t : Type := mk { r : R; g : R; b : R }.

(** [c.lerp(d, alpha)], in three.js [this.r += (d.r - this.r) * alpha] and
    likewise for g and b. *)
Definition lerp (c d : t) (alpha : R) : t :=
  mk (r c + (r d - r c) * alpha)
     (g c + (g d - g c) * alpha)
     (b c + (b d - b c) * alpha).

End Color.

(** The fields of [material] that [animate] writes. *)
Record Material : Type := mkMaterial {
  material_color : Color.t;
  material_size : R
}.

(** The material as the script creates it; [toColor] is
    [new THREE.Color(hex)]. *)
Definition newMaterial (isMobile : bool) (toColor : Z -> Color.t) : Material :=
  mkMaterial (toColor 0x666666%Z) (if isMobile then 0.35 else 0.15).

(** Lines 193-200 of [animate]: the material after one frame, from the
    current gesture and the clock (already advanced by that frame). *)
Definition updateMaterial (isMobile : bool) (toColor : Z -> Color.t)
    (currentGesture : Gesture) (time : R) (material : Material) : Material :=
  match currentGesture with
  | like =>
      mkMaterial (Color.lerp (material_color material) (toColor 0xff4488%Z) 0.1)
                 ((if isMobile then 0.35 else 0.15) + sin (time * 5) * 0.05)
  | none =>
      mkMaterial (Color.lerp (material_color material) (toColor 0x666666%Z) 0.1)
                 (material_size material)
  | peace | rock | fist | detected =>
      mkMaterial (Color.lerp (material_color material) (toColor 0x00ccff%Z) 0.1)
                 (material_size material)
  end.

(** The material after a run of frames, each given by the gesture and the
    clock it was rendered with. *)
Definition materialAfter (isMobile : bool) (toColor : Z -> Color.t)
    (material : Material) (rendered : list (Gesture * R)) : Material :=
  fold_left (fun m f => updateMaterial isMobile toColor (fst f) (snd f) m)
            rendered material.

(* ===================================================================== *)
(** * Vocabulary of the properties *)
(* ===================================================================== *)

(** "Finger extended": the tip landmark is above the joint landmark. *)
Definition fingerExtended (lm : list Landmark) (tip joint : nat) : bool :=
  match nth_error lm tip, nth_error lm joint with
  | Some a, Some b => Js.lt (lm_y a) (lm_y b)
  | _, _ => false
  end.

(** A frame on which the tracker reports the hands [lm :: others]. *)
Definition handFrame (lm : list Landmark) (others : list (list Landmark)) : Results :=
  mkResults (Some (lm :: others)).

(** The rows of the priority table, as patterns on (index, middle, pinky,
    thumb). *)
Definition peacePattern (i m p t : bool) : Prop := i = true /\ m = true /\ p = false.
Definition rockPattern (i m p t : bool) : Prop := i = true /\ p = true /\ m = false.
Definition likePattern (i m p t : bool) : Prop := t = true /\ i = false /\ m = false.
Definition fistPattern (i m p t : bool) : Prop := i = false /\ m = false /\ p = false.

(** A tracked hand of the usual 21 landmarks, all at the centre of the
    image. *)
Definition flatHand : list Landmark := repeat (mkLandmark 0.5 0.5 0) 21.

(** A malformed hand: the wrist landmark only. *)
Definition wristOnly : list Landmark := [mkLandmark 0.5 0.5 0].

(** A world in which the last classified gesture was [peace]. *)
Definition peaceWorld : World := set_currentGesture peace (preWorld 1).

(** A frame on which the tracker reports no hand: [multiHandLandmarks]
    is absent or empty. *)
Definition noHand (r : Results) : Prop :=
  multiHandLandmarks r = None \/ multiHandLandmarks r = Some [].

(** The world after the landmark frames [rs], delivered in order. *)
Definition deliver (w : World) (rs : list Results) : World :=
  fold_left (fun w r => snd (onResults r w)) rs w.

(** [v] with every component multiplied by [k]. *)
Definition scaled (k : R) (v : Vector3.t) : Vector3.t :=
  Vector3.mk (k * Vector3.x v) (k * Vector3.y v) (k * Vector3.z v).

(** [a] lies between zero and [b], on [b]'s side of zero. *)
Definition between0 (a b : R) : Prop := 0 <= a <= b \/ b <= a <= 0.

(** A world whose hand displacement is (10, -5, 0). *)
Definition displacedWorld : World :=
  set_handDisplacement (Vector3.mk 10 (-5) 0) (preWorld 1).

(** Ten consecutive frames without a hand. *)
Definition tenLostFrames : list Results := repeat (mkResults None) 10.

(** The value [getResponsiveScale()] returns for a camera. *)
Definition responsiveScale (c : Camera) : R :=
  ((2 * tan (MathUtils.degToRad (fov c) / 2) * camera_position_z c * aspect c) / 512) * 0.8.

(** The foreground samples [createTextPoints] collects for [text] in the
    world [w], before the cycling fill. *)
Definition samples (env : Env) (text : string) (w : World) : list Vector3.t :=
  scanImage (fillText env text) (responsiveScale (camera w)).

(** The point pushed for the sampled pixel (x, y). *)
Definition pixelPoint (scale : R) (y x : nat) : Vector3.t :=
  Vector3.mk ((INR x - 256) * scale) ((64 - INR y) * scale) 0.

(** Image data of a 512 x 128 canvas on which nothing was drawn. *)
Definition blankImage : list Z := repeat 0%Z (512 * 128 * 4).

(** Image data of a 512 x 128 canvas whose only opaque white pixel is the
    top left one. *)
Definition dotImage : list Z :=
  [255%Z; 255%Z; 255%Z; 255%Z] ++ repeat 0%Z (512 * 128 * 4 - 4).

(** Hosts whose rasteriser draws nothing, respectively a single dot,
    whatever the text; desktop tier, [Math.random()] constantly 0. *)
Definition blankEnv : Env := mkEnv false (fun _ => blankImage) (fun _ => 0).
Definition dotEnv : Env := mkEnv false (fun _ => dotImage) (fun _ => 0).

(** The device-tier scale factor [s] of the planet shape. *)
Definition scaleFactor (env : Env) : R := if isMobile env then 0.6 else 1.0.

(** The sizes of the planet's core and ring: two and three fifths of the
    particle count. *)
Definition coreCount (env : Env) : nat := (PARTICLE_COUNT env * 2 / 5)%nat.
Definition ringCount (env : Env) : nat := (PARTICLE_COUNT env * 3 / 5)%nat.

(** Core point [i] of the planet, as [saturnPoint] computes it. *)
Definition corePhi (env : Env) (i : nat) : R :=
  acos (-1 + (2 * INR i) / (INR (PARTICLE_COUNT env) * 0.4)).
Definition coreTheta (env : Env) (i : nat) : R :=
  sqrt (INR (PARTICLE_COUNT env) * 0.4 * PI) * corePhi env i.
Definition corePoint (env : Env) (i : nat) : Vector3.t :=
  Vector3.setFromSphericalCoords (15 * scaleFactor env) (corePhi env i) (coreTheta env i).

(** The ring point [saturnPoint] builds when [d] values of
    [Math.random()] have been consumed before. *)
Definition ringAngle (env : Env) (d : nat) : R := random env d * PI * 2.
Definition ringRadius (env : Env) (d : nat) : R :=
  (20 + random env (S d) * 6) * scaleFactor env.
Definition ringHeight (env : Env) (d : nat) : R :=
  (random env (S (S d)) - 0.5) * 0.6.
Definition ringPoint (env : Env) (d : nat) : Vector3.t :=
  Vector3.mk (cos (ringAngle env d) * ringRadius env d)
             (ringHeight env d)
             (sin (ringAngle env d) * ringRadius env d).

(** The point of the dispersed cloud built when [d] values of
    [Math.random()] have been consumed before. *)
Definition cloudPoint (env : Env) (d : nat) : Vector3.t :=
  Vector3.mk ((random env d - 0.5) * 60)
             ((random env (S d) - 0.5) * 60)
             ((random env (S (S d)) - 0.5) * 60).

(** [Math.random()] returns a number in [0, 1). *)
Definition randomInRange (env : Env) : Prop := forall k, 0 <= random env k < 1.

(** Distance of a point from the y axis. *)
Definition horizontalRadius (v : Vector3.t) : R :=
  sqrt (Vector3.x v * Vector3.x v + Vector3.z v * Vector3.z v).

(** A planet point set as [initShapes] builds it: the core points first,
    then the ring points. *)
Definition planetShape (env : Env) (l : list Vector3.t) : Prop :=
  length l = PARTICLE_COUNT env /\
  (forall i, (i < coreCount env)%nat -> nth_error l i = Some (corePoint env i)) /\
  (forall i, (coreCount env <= i < PARTICLE_COUNT env)%nat ->
     exists d, nth_error l i = Some (ringPoint env d)).

(** All five point sets have one point per particle and the planet is a
    planet. *)
Definition shapesReady (env : Env) (s : Shapes) : Prop :=
  length (willYouPoints s) = PARTICLE_COUNT env /\
  length (beMyPoints s) = PARTICLE_COUNT env /\
  length (valentinesPoints s) = PARTICLE_COUNT env /\
  length (randomPoints s) = PARTICLE_COUNT env /\
  planetShape env (saturnPoints s).

(** Each of the three texts has at least one sampled foreground pixel
    under the camera of [w]. *)
Definition textsDrawn (env : Env) (w : World) : Prop :=
  (1 <= length (samples env "WILL YOU" w))%nat /\
  (1 <= length (samples env "BE MY" w))%nat /\
  (1 <= length (samples env "VALENTINE?" w))%nat.

(** One smoothing step of a coordinate [p] toward [c], plus drift. *)
Definition eased (c drift p : R) : R := p + ((c - p) * SMOOTHING + drift).

(** Component [a] (0, 1 or 2) of a vector. *)
Definition axis (a : nat) (v : Vector3.t) : R :=
  match a with
  | O => Vector3.x v
  | S O => Vector3.y v
  | _ => Vector3.z v
  end.

(** [posArray] after the loop body of [animate] ran for particle [i] with
    target point [c]. *)
Definition movedArray (c : Vector3.t) (drift : R) (i : nat) (arr : list R) : list R :=
  Js.update
    (Js.update
       (Js.update arr (i * 3) (eased (Vector3.x c) drift))
       (i * 3 + 1) (eased (Vector3.y c) drift))
    (i * 3 + 2) (eased (Vector3.z c) drift).

(** The set the loop of [animate] reads its targets from, and the drift
    it adds for particle [i]. *)
Definition targetsOf (w : World) (targetSet : option (list Vector3.t)) : list Vector3.t :=
  match targetSet with
  | Some set => set
  | None => randomPoints (shapes w)
  end.
Definition driftOf (w : World) (targetSet : option (list Vector3.t)) (i : nat) : R :=
  match targetSet with
  | Some _ => 0
  | None => sin (time w + INR i) * 0.04
  end.

(** Particle [i] of a position buffer. *)
Definition particle (arr : list R) (i : nat) : Vector3.t :=
  Vector3.mk (nth (i * 3) arr 0) (nth (i * 3 + 1) arr 0) (nth (i * 3 + 2) arr 0).

(** The world after [k] more rendered frames. *)
Definition frames (env : Env) (w : World) (k : nat) : World :=
  run env w (repeat AnimationFrame k).

(** [posArray] after the loop of [animate] ran for the particles
    [indices], with targets [L] and drift [drift]. *)
Definition morphedArray (L : list Vector3.t) (drift : nat -> R) (indices : list nat)
    (arr : list R) : list R :=
  fold_left (fun arr i => movedArray (nth i L Vector3.zero) (drift i) i arr) indices arr.

(** The world [animate] leaves when it returns. *)
Definition animated (env : Env) (w : World) : World :=
  let w1 := set_time (time w + 0.01) w in
  set_posArray
    (morphedArray (targetsOf w1 (selectTarget w1)) (driftOf w1 (selectTarget w1))
                  (seq 0 (PARTICLE_COUNT env)) (posArray w))
    (set_position (Vector3.lerp (position w) (handDisplacement w) ELASTICITY) w1).

(** The point sets are ready and the particle buffer holds three
    numbers for each of the [PARTICLE_COUNT] particles. *)
Definition ready (env : Env) (w : World) : Prop :=
  shapesReady env (shapes w) /\
  length (posArray w) = (PARTICLE_COUNT env * 3)%nat.

(** Neither the hand displacement nor the cloud's translation has a z
    component. *)
Definition planar (w : World) : Prop :=
  Vector3.z (handDisplacement w) = 0 /\ Vector3.z (position w) = 0.

(** The world the script is in once it has loaded. *)
Definition loaded (env : Env) (aspect0 : R) : World :=
  snd (main env (preWorld aspect0)).

(** A mobile host whose rasteriser draws a single dot and whose
    [Math.random()] is constantly 0. *)
Definition mobileEnv : Env := mkEnv true (fun _ => dotImage) (fun _ => 0).

(** [loaded dotEnv 1] after the window was resized to aspect ratio 2. *)
Definition resizedWorld : World := step dotEnv (loaded dotEnv 1) (Resize 2).

(** The loaded desktop script holding the [fist] gesture. *)
Definition fistWorld : World := set_currentGesture fist (loaded dotEnv 1).

(** A hand of 21 landmarks with the given heights, all at x = 0.5. *)
Definition handOfHeights (ys : list R) : list Landmark :=
  map (fun y => mkLandmark 0.5 y 0) ys.

(** Index and middle fingertips (landmarks 8 and 12) raised above their
    joints, every other landmark at height 0.5. *)
Definition peaceHand : list Landmark :=
  handOfHeights
    [0.5; 0.5; 0.5; 0.5; 0.5; 0.5; 0.5; 0.5; 0.2; 0.5; 0.5;
     0.5; 0.2; 0.5; 0.5; 0.5; 0.5; 0.5; 0.5; 0.5; 0.5].

(** The width of the scene the camera sees at the origin's depth, as
    [getResponsiveScale] computes it. *)
Definition visibleWidth (c : Camera) : R :=
  2 * tan (MathUtils.degToRad (fov c) / 2) * camera_position_z c * aspect c.

(** [n] points obtained by cycling through [points]. *)
Definition cycled (points : list Vector3.t) (n : nat) : list Vector3.t :=
  map (fun i => nth (i mod length points) points Vector3.zero) (seq 0 n).

(** The text set [createTextPoints] returns for [text] under camera [c]
    when the text has a foreground sample. *)
Definition generatedText (env : Env) (text : string) (c : Camera) : list Vector3.t :=
  cycled (scanImage (fillText env text) (responsiveScale c)) (PARTICLE_COUNT env).

(** The dispersed cloud generated when [d] random values were consumed
    before: three fresh values per point. *)
Definition generatedCloud (env : Env) (d : nat) : list Vector3.t :=
  map (fun j => cloudPoint env (d + 3 * j)) (seq 0 (PARTICLE_COUNT env)).

(** The planet generated when [d] random values were consumed before: the
    core needs none, ring point [i] takes three fresh values. *)
Definition generatedPlanet (env : Env) (d : nat) : list Vector3.t :=
  map (fun i => if (i <? coreCount env)%nat then corePoint env i
                else ringPoint env (d + 3 * (i - coreCount env)))
      (seq 0 (PARTICLE_COUNT env)).

(** The five point sets one run of [initShapes] assigns, under camera [c]
    and with [d] random values consumed before. *)
Definition generatedShapes (env : Env) (c : Camera) (d : nat) : Shapes :=
  mkShapes (generatedText env "WILL YOU" c)
           (generatedText env "BE MY" c)
           (generatedText env "VALENTINE?" c)
           (generatedPlanet env (d + 3 * PARTICLE_COUNT env))
           (generatedCloud env d).

(** The number of random values one run of [initShapes] consumes. *)
Definition drawsPerGeneration (env : Env) : nat :=
  (3 * PARTICLE_COUNT env + 3 * ringCount env)%nat.

(** The point sets are those of the latest generation, made under the
    current camera. *)
Definition synced (env : Env) (w : World) : Prop :=
  textsDrawn env w /\
  exists d, shapes w = generatedShapes env (camera w) d /\
            draws w = (d + drawsPerGeneration env)%nat.

(** The set a gesture makes the particles head for, and whether they
    drift on the way. *)
Definition shapeFor (g : Gesture) (s : Shapes) : list Vector3.t :=
  match g with
  | peace => willYouPoints s
  | rock => beMyPoints s
  | like => valentinesPoints s
  | fist => saturnPoints s
  | none | detected => randomPoints s
  end.
Definition drifts (g : Gesture) : bool :=
  match g with
  | none | detected => true
  | peace | rock | like | fist => false
  end.

(** The colour a gesture makes the material head for. *)
Definition colorTarget (toColor : Z -> Color.t) (g : Gesture) : Color.t :=
  match g with
  | like => toColor 0xff4488%Z
  | none => toColor 0x666666%Z
  | peace | rock | fist | detected => toColor 0x00ccff%Z
  end.

(** The base point size of the device tier. *)
Definition baseSize (isMobile : bool) : R := if isMobile then 0.35 else 0.15.

(* ===================================================================== *)
(** * Properties: gesture classifier *)
(* ===================================================================== *)

Lemma nth_error_present {A : Type} (l : list A) (k : nat) :
  (k < length l)%nat -> exists a, nth_error l k = Some a.
Proof.
  intros H. destruct (nth_error l k) eqn:E; [eauto|].
  apply nth_error_None in E. lia.
Qed.

(** The chain of conditions is the priority table: first matching row
    wins, no row gives [detected]. *)
Lemma classify_table (i m p t : bool) :
  (peacePattern i m p t -> classify i m p t = peace) /\
  (~ peacePattern i m p t -> rockPattern i m p t -> classify i m p t = rock) /\
  (~ peacePattern i m p t -> ~ rockPattern i m p t -> likePattern i m p t ->
     classify i m p t = like) /\
  (~ peacePattern i m p t -> ~ rockPattern i m p t -> ~ likePattern i m p t ->
     fistPattern i m p t -> classify i m p t = fist) /\
  (~ peacePattern i m p t -> ~ rockPattern i m p t -> ~ likePattern i m p t ->
     ~ fistPattern i m p t -> classify i m p t = detected).
Proof.
  unfold peacePattern, rockPattern, likePattern, fistPattern.
  destruct i, m, p, t; cbn; repeat split; intros;
    try reflexivity; exfalso; intuition congruence.
Qed.

(** What [onResults] does with a hand that has all its landmarks. *)
Lemma onResults_hand (w : World) (lm : list Landmark) (others : list (list Landmark)) :
  (20 < length lm)%nat ->
  exists wrist,
    nth_error lm 0 = Some wrist /\
    onResults (handFrame lm others) w =
      (Js.Normal tt,
       set_currentGesture
         (classify (fingerExtended lm 8 6) (fingerExtended lm 12 10)
                   (fingerExtended lm 20 18) (fingerExtended lm 4 2))
         (set_handDisplacement
            (Vector3.mk ((lm_x wrist - 0.5) * -40) ((0.5 - lm_y wrist) * 30)
                        (Vector3.z (handDisplacement w))) w)).
Proof.
  intros H.
  destruct (nth_error_present lm 0) as [l0 E0]; [lia|].
  destruct (nth_error_present lm 2) as [l2 E2]; [lia|].
  destruct (nth_error_present lm 4) as [l4 E4]; [lia|].
  destruct (nth_error_present lm 6) as [l6 E6]; [lia|].
  destruct (nth_error_present lm 8) as [l8 E8]; [lia|].
  destruct (nth_error_present lm 10) as [l10 E10]; [lia|].
  destruct (nth_error_present lm 12) as [l12 E12]; [lia|].
  destruct (nth_error_present lm 18) as [l18 E18]; [lia|].
  destruct (nth_error_present lm 20) as [l20 E20]; [lia|].
  exists l0. split; [exact E0|].
  unfold onResults, handFrame, fingerExtended, landmark, bind, lift, modify.
  cbn [multiHandLandmarks].
  rewrite E0, E2, E4, E6, E8, E10, E12, E18, E20. reflexivity.
Qed.

(** C1.  On a frame with a detected hand (all landmarks present) the
    handler returns normally and the gesture it stores is a function of the
    four finger-extended predicates alone, namely the priority table:
    peace, else rock, else like, else fist, else detected.  In particular
    (true, true, false, false) gives peace and four times false gives
    fist. *)
Theorem gesture_is_priority_table :
  forall (w : World) (lm : list Landmark) (others : list (list Landmark)),
    (20 < length lm)%nat ->
    let i := fingerExtended lm 8 6 in
    let m := fingerExtended lm 12 10 in
    let p := fingerExtended lm 20 18 in
    let t := fingerExtended lm 4 2 in
    let g := currentGesture (snd (onResults (handFrame lm others) w)) in
    fst (onResults (handFrame lm others) w) = Js.Normal tt /\
    g = classify i m p t /\
    (peacePattern i m p t -> g = peace) /\
    (~ peacePattern i m p t -> rockPattern i m p t -> g = rock) /\
    (~ peacePattern i m p t -> ~ rockPattern i m p t -> likePattern i m p t ->
       g = like) /\
    (~ peacePattern i m p t -> ~ rockPattern i m p t -> ~ likePattern i m p t ->
       fistPattern i m p t -> g = fist) /\
    (~ peacePattern i m p t -> ~ rockPattern i m p t -> ~ likePattern i m p t ->
       ~ fistPattern i m p t -> g = detected) /\
    classify true true false false = peace /\
    classify false false false false = fist.
Proof.
  intros w lm others H i m p t g.
  destruct (onResults_hand w lm others H) as [wrist [_ E]].
  assert (Hg : g = classify i m p t) by (unfold g; rewrite E; reflexivity).
  rewrite E. split; [reflexivity|]. split; [exact Hg|].
  rewrite Hg.
  destruct (classify_table i m p t) as [T1 [T2 [T3 [T4 T5]]]].
  repeat split; assumption || reflexivity.
Qed.

Lemma gesture_is_priority_table_witness :
  (20 < length flatHand)%nat /\
  fst (onResults (handFrame flatHand []) peaceWorld) = Js.Normal tt.
Proof.
  assert (H : (20 < length flatHand)%nat) by (cbn; lia).
  split; [exact H|].
  exact (proj1 (gesture_is_priority_table peaceWorld flatHand [] H)).
Defined.

Ltac throw_case Hne Hw :=
  first [ reflexivity
        | intros Hnil; exfalso; exact (Hne Hnil)
        | let wrist := fresh "wrist" in
          let E := fresh "E" in
          intros wrist E; rewrite <- (Hw wrist E); reflexivity ].

(** C3 (as the code has it).  A hand with fewer than 21 landmarks lacks
    landmark 20, which the classifier reads: the handler then throws a
    [TypeError] at the first missing landmark and stores no gesture, so the
    previous gesture stays current; the z component of the displacement is
    not touched, and a hand without any landmark changes nothing at all. *)
Theorem incomplete_hand_throws :
  forall (w : World) (lm : list Landmark) (others : list (list Landmark)),
    (length lm < 21)%nat ->
    fst (onResults (handFrame lm others) w) = Js.Throw Js.TypeError /\
    currentGesture (snd (onResults (handFrame lm others) w)) = currentGesture w /\
    Vector3.z (handDisplacement (snd (onResults (handFrame lm others) w)))
      = Vector3.z (handDisplacement w) /\
    (lm = [] -> snd (onResults (handFrame lm others) w) = w) /\
    (forall wrist, nth_error lm 0 = Some wrist ->
       handDisplacement (snd (onResults (handFrame lm others) w)) =
       Vector3.mk ((lm_x wrist - 0.5) * -40) ((0.5 - lm_y wrist) * 30)
                  (Vector3.z (handDisplacement w))).
Proof.
  intros w lm others H.
  assert (E20 : nth_error lm 20 = None) by (apply nth_error_None; lia).
  unfold onResults, handFrame, landmark, bind, lift, modify.
  cbn [multiHandLandmarks].
  destruct (nth_error lm 0) as [l0|] eqn:E0;
    [|cbn; repeat split; try reflexivity; intros; discriminate].
  assert (Hne : lm = [] -> False) by (intros ->; discriminate E0).
  assert (Hw : forall wrist, Some l0 = Some wrist -> l0 = wrist)
    by (intros wrist [= ->]; reflexivity).
  destruct (nth_error lm 8) as [l8|]; [|cbn; repeat split; throw_case Hne Hw].
  destruct (nth_error lm 6) as [l6|]; [|cbn; repeat split; throw_case Hne Hw].
  destruct (nth_error lm 12) as [l12|]; [|cbn; repeat split; throw_case Hne Hw].
  destruct (nth_error lm 10) as [l10|]; [|cbn; repeat split; throw_case Hne Hw].
  rewrite E20. cbn. repeat split; throw_case Hne Hw.
Qed.

Lemma incomplete_hand_throws_witness :
  (length wristOnly < 21)%nat /\
  fst (onResults (handFrame wristOnly []) peaceWorld) = Js.Throw Js.TypeError.
Proof.
  assert (H : (length wristOnly < 21)%nat) by (cbn; lia).
  split; [exact H|].
  exact (proj1 (incomplete_hand_throws peaceWorld wristOnly [] H)).
Defined.

(** C3 as claimed fails: on the hand [wristOnly], delivered while the
    gesture is [peace], the handler neither returns nor leaves the gesture
    [none] or [detected]; it throws and the gesture is still [peace]. *)
Lemma incomplete_hand_no_fallback :
  fst (onResults (handFrame wristOnly []) peaceWorld) = Js.Throw Js.TypeError /\
  currentGesture (snd (onResults (handFrame wristOnly []) peaceWorld)) = peace /\
  ~ (fst (onResults (handFrame wristOnly []) peaceWorld) = Js.Normal tt /\
     (currentGesture (snd (onResults (handFrame wristOnly []) peaceWorld)) = none \/
      currentGesture (snd (onResults (handFrame wristOnly []) peaceWorld)) = detected)).
Proof.
  assert (E : fst (onResults (handFrame wristOnly []) peaceWorld) = Js.Throw Js.TypeError)
    by reflexivity.
  assert (G : currentGesture (snd (onResults (handFrame wristOnly []) peaceWorld)) = peace)
    by reflexivity.
  split; [exact E|]. split; [exact G|].
  rewrite E, G. intros [H _]. discriminate H.
Qed.

(* ===================================================================== *)
(** * Properties: decay of the hand displacement *)
(* ===================================================================== *)

Lemma scaled_scaled (a b : R) (v : Vector3.t) :
  scaled a (scaled b v) = scaled (a * b) v.
Proof. unfold scaled. cbn. f_equal; ring. Qed.

Lemma scaled_one (v : Vector3.t) : scaled 1 v = v.
Proof. destruct v. unfold scaled. cbn. f_equal; ring. Qed.

Lemma lengthSq_nonneg (v : Vector3.t) : 0 <= Vector3.lengthSq v.
Proof. unfold Vector3.lengthSq. nra. Qed.

Lemma length_scaled (k : R) (v : Vector3.t) :
  0 <= k -> Vector3.length (scaled k v) = k * Vector3.length v.
Proof.
  intros Hk. unfold Vector3.length.
  replace (Vector3.lengthSq (scaled k v)) with ((k * k) * Vector3.lengthSq v)
    by (unfold Vector3.lengthSq, scaled; cbn; ring).
  rewrite sqrt_mult; [|nra|apply lengthSq_nonneg].
  rewrite sqrt_square by exact Hk. reflexivity.
Qed.

Lemma lerp_to_zero (v : Vector3.t) :
  Vector3.lerp v (Vector3.mk 0 0 0) 0.05 = scaled 0.95 v.
Proof. unfold Vector3.lerp, scaled. cbn. f_equal; lra. Qed.

Lemma onResults_noHand (w : World) (r : Results) :
  noHand r ->
  onResults r w =
    (Js.Normal tt,
     set_handDisplacement
       (Vector3.lerp (handDisplacement w) (Vector3.mk 0 0 0) 0.05)
       (set_currentGesture none w)).
Proof.
  intros [H|H]; unfold onResults; rewrite H; reflexivity.
Qed.

Lemma deliver_snoc (w : World) (rs : list Results) (r : Results) :
  deliver w (rs ++ [r]) = snd (onResults r (deliver w rs)).
Proof. unfold deliver. rewrite fold_left_app. reflexivity. Qed.

Lemma deliver_noHand (rs : list Results) :
  Forall noHand rs ->
  forall w,
    handDisplacement (deliver w rs) = scaled (0.95 ^ length rs) (handDisplacement w) /\
    (rs <> [] -> currentGesture (deliver w rs) = none).
Proof.
  induction rs as [|r rs IH] using rev_ind; intros Hall w.
  - cbn. rewrite scaled_one. split; [reflexivity|congruence].
  - apply Forall_app in Hall. destruct Hall as [Hrs Hr].
    inversion Hr as [|? ? Hr' _]; subst.
    rewrite deliver_snoc, (onResults_noHand _ _ Hr'). cbn [snd].
    destruct (IH Hrs w) as [IHd _].
    split; [|intros _; reflexivity].
    cbn [handDisplacement set_handDisplacement].
    cbn [handDisplacement set_currentGesture].
    rewrite lerp_to_zero, IHd, scaled_scaled.
    rewrite length_app, Nat.add_comm. cbn [length Nat.add pow]. reflexivity.
Qed.

Lemma decay_factor_bounds (n : nat) : 0 < 0.95 ^ n <= 1.
Proof.
  induction n as [|n IH]; cbn [pow]; lra.
Qed.

Lemma between0_scaled (k a : R) : 0 <= k <= 1 -> between0 (k * a) a.
Proof.
  intros Hk. unfold between0.
  destruct (Rle_dec 0 a); [left|right]; nra.
Qed.

Lemma decay_vanishes (L eps : R) :
  0 <= L -> 0 < eps ->
  exists n0, forall n, (n0 <= n)%nat -> 0.95 ^ n * L < eps.
Proof.
  intros HL Heps.
  assert (Hq : 0 < eps / (L + 1)) by (apply Rdiv_lt_0_compat; lra).
  destruct (pow_lt_1_zero 0.95) with (y := eps / (L + 1)) as [n0 Hn0];
    [rewrite Rabs_pos_eq; lra|exact Hq|].
  exists n0. intros n Hn.
  specialize (Hn0 n Hn).
  destruct (decay_factor_bounds n) as [Hpos _].
  rewrite Rabs_pos_eq in Hn0 by lra.
  assert (Hmul : 0.95 ^ n * (L + 1) < eps).
  { apply (Rmult_lt_compat_r (L + 1)) in Hn0; [|lra].
    unfold Rdiv in Hn0. rewrite Rmult_assoc, Rinv_l in Hn0 by lra. lra. }
  nra.
Qed.

(** C8.  A frame without a hand returns normally, forces the gesture to
    [none] and blends the displacement with the zero vector at factor 0.05,
    which multiplies every component by 0.95 (no snap to zero).  Over a run
    of such frames the displacement is the initial one times 0.95^n: its
    length never grows, strictly shrinks while it is not zero, tends to
    zero, and every component stays between zero and its initial value. *)
Theorem no_hand_decay :
  forall (w : World) (rs : list Results),
    Forall noHand rs ->
    let d0 := handDisplacement w in
    let d := handDisplacement (deliver w rs) in
    (forall r, noHand r ->
       let w' := snd (onResults r (deliver w rs)) in
       fst (onResults r (deliver w rs)) = Js.Normal tt /\
       currentGesture w' = none /\
       handDisplacement w' = Vector3.lerp d (Vector3.mk 0 0 0) 0.05 /\
       handDisplacement w' = scaled 0.95 d /\
       Vector3.length (handDisplacement w') <= Vector3.length d /\
       (0 < Vector3.length d0 ->
          Vector3.length (handDisplacement w') < Vector3.length d)) /\
    (rs <> [] -> currentGesture (deliver w rs) = none) /\
    d = scaled (0.95 ^ length rs) d0 /\
    Vector3.length d = 0.95 ^ length rs * Vector3.length d0 /\
    between0 (Vector3.x d) (Vector3.x d0) /\
    between0 (Vector3.y d) (Vector3.y d0) /\
    between0 (Vector3.z d) (Vector3.z d0) /\
    (forall eps, 0 < eps ->
       exists n0, forall rs', Forall noHand rs' -> (n0 <= length rs')%nat ->
         Vector3.length (handDisplacement (deliver w rs')) < eps).
Proof.
  intros w rs Hall d0 d.
  destruct (deliver_noHand rs Hall w) as [Hd Hg].
  fold d d0 in Hd.
  destruct (decay_factor_bounds (length rs)) as [Kpos Kle].
  assert (Hlen : Vector3.length d = 0.95 ^ length rs * Vector3.length d0).
  { rewrite Hd. apply length_scaled. lra. }
  assert (HL0 : 0 <= Vector3.length d0) by apply sqrt_pos.
  repeat split.
  - rewrite (onResults_noHand _ _ H). reflexivity.
  - rewrite (onResults_noHand _ _ H). reflexivity.
  - rewrite (onResults_noHand _ _ H). reflexivity.
  - rewrite (onResults_noHand _ _ H). cbn. apply lerp_to_zero.
  - rewrite (onResults_noHand _ _ H). cbn.
    rewrite lerp_to_zero. fold d. rewrite length_scaled by lra.
    assert (0 <= Vector3.length d) by apply sqrt_pos. lra.
  - intros Hpos. rewrite (onResults_noHand _ _ H). cbn.
    rewrite lerp_to_zero. fold d. rewrite length_scaled by lra.
    assert (0 < Vector3.length d) by (rewrite Hlen; nra). lra.
  - exact Hg.
  - exact Hd.
  - exact Hlen.
  - rewrite Hd. cbn. apply between0_scaled. lra.
  - rewrite Hd. cbn. apply between0_scaled. lra.
  - rewrite Hd. cbn. apply between0_scaled. lra.
  - intros eps Heps.
    destruct (decay_vanishes (Vector3.length d0) eps HL0 Heps) as [n0 Hn0].
    exists n0. intros rs' Hall' Hn.
    destruct (deliver_noHand rs' Hall' w) as [Hd' _].
    rewrite Hd', length_scaled by (destruct (decay_factor_bounds (length rs')); lra).
    apply Hn0. exact Hn.
Qed.

Lemma no_hand_decay_witness :
  Forall noHand tenLostFrames /\
  handDisplacement (deliver displacedWorld tenLostFrames)
    = scaled (0.95 ^ 10) (Vector3.mk 10 (-5) 0) /\
  Vector3.length (handDisplacement (deliver displacedWorld tenLostFrames))
    = 0.95 ^ 10 * Vector3.length (Vector3.mk 10 (-5) 0).
Proof.
  assert (H : Forall noHand tenLostFrames)
    by (unfold tenLostFrames; cbn; repeat constructor).
  split; [exact H|].
  pose proof (no_hand_decay displacedWorld tenLostFrames H) as T.
  cbv zeta in T.
  destruct T as [_ [_ [T1 [T2 _]]]].
  split; [exact T1|exact T2].
Defined.

(* ===================================================================== *)
(** * Properties: the monad and [Array.from] *)
(* ===================================================================== *)

Lemma bind_normal {A B : Type} (m : M A) (k : A -> M B) (w w' : World) (a : A) :
  m w = (Js.Normal a, w') -> bind m k w = k a w'.
Proof. intros H. unfold bind. rewrite H. reflexivity. Qed.

Lemma bind_throw {A B : Type} (m : M A) (k : A -> M B) (w w' : World) (e : Js.Error) :
  m w = (Js.Throw e, w') -> bind m k w = (Js.Throw e, w').
Proof. intros H. unfold bind. rewrite H. reflexivity. Qed.

Section PureCallback.

Context {A : Type} (g : nat -> Js.Completion A).

(** [Array.from] with a callback that only computes leaves the globals
    alone. *)
Lemma Array_from_lift_world (n start : nat) (w : World) :
  snd (Array_from_at start n (fun i => lift (g i)) w) = w.
Proof.
  revert start. induction n as [|n IH]; intros start; [reflexivity|].
  cbn [Array_from_at]. unfold bind at 1. unfold lift at 1.
  destruct (g start) as [a|e]; [|reflexivity].
  unfold bind at 1.
  specialize (IH (S start)).
  destruct (Array_from_at (S start) n (fun i => lift (g i)) w) as [[l|e] w'];
    cbn in IH |- *; exact IH.
Qed.

(** When it returns, the array has one element per index, the callback's
    value at that index. *)
Lemma Array_from_lift_normal (n start : nat) (w : World) (l : list A) :
  fst (Array_from_at start n (fun i => lift (g i)) w) = Js.Normal l ->
  length l = n /\
  forall j, (j < n)%nat ->
    exists a, nth_error l j = Some a /\ g (start + j)%nat = Js.Normal a.
Proof.
  revert start l. induction n as [|n IH]; intros start l.
  - cbn. intros [= <-]. split; [reflexivity|]. intros j Hj. lia.
  - cbn [Array_from_at]. unfold bind at 1. unfold lift at 1.
    destruct (g start) as [a|e] eqn:Ea; [|cbn; discriminate].
    unfold bind at 1.
    specialize (IH (S start)).
    destruct (Array_from_at (S start) n (fun i => lift (g i)) w) as [[l'|e] w'];
      [|cbn; discriminate].
    cbn. intros [= <-].
    destruct (IH l' eq_refl) as [Hlen Hnth].
    split; [cbn; lia|].
    intros [|j] Hj.
    + exists a. rewrite Nat.add_0_r. split; [reflexivity|exact Ea].
    + destruct (Hnth j) as [b [Hb Hg]]; [lia|].
      exists b. split; [exact Hb|].
      rewrite <- Hg. f_equal. lia.
Qed.

(** It returns when the callback returns at every index. *)
Lemma Array_from_lift_total (n start : nat) (w : World) :
  (forall j, (j < n)%nat -> exists a, g (start + j)%nat = Js.Normal a) ->
  exists l, fst (Array_from_at start n (fun i => lift (g i)) w) = Js.Normal l.
Proof.
  revert start. induction n as [|n IH]; intros start Hg.
  - exists []. reflexivity.
  - cbn [Array_from_at]. unfold bind at 1. unfold lift at 1.
    destruct (Hg 0%nat) as [a Ea]; [lia|].
    rewrite Nat.add_0_r in Ea. rewrite Ea.
    unfold bind at 1.
    destruct (IH (S start)) as [l' Hl'].
    { intros j Hj. destruct (Hg (S j)) as [b Hb]; [lia|].
      exists b. rewrite <- Hb. f_equal. lia. }
    destruct (Array_from_at (S start) n (fun i => lift (g i)) w) as [[l|e] w'];
      cbn in Hl'; [|discriminate].
    exists (a :: l). reflexivity.
Qed.

(** A throw at the first index ends it at once. *)
Lemma Array_from_lift_throw (n start : nat) (w : World) (e : Js.Error) :
  n <> 0%nat -> g start = Js.Throw e ->
  fst (Array_from_at start n (fun i => lift (g i)) w) = Js.Throw e.
Proof.
  intros Hn He. destruct n as [|n]; [congruence|].
  cbn [Array_from_at]. unfold bind at 1. unfold lift at 1.
  rewrite He. reflexivity.
Qed.

End PureCallback.

(* ===================================================================== *)
(** * Properties: text point sets *)
(* ===================================================================== *)

Lemma fold_left_push {A B : Type} (c : A -> bool) (f : A -> B) (l : list A) :
  forall init,
    fold_left (fun acc a => if c a then acc ++ [f a] else acc) l init
    = init ++ map f (filter c l).
Proof.
  induction l as [|a l IH]; intros init; cbn.
  - rewrite app_nil_r. reflexivity.
  - rewrite IH. destruct (c a); cbn; [rewrite <- app_assoc|]; reflexivity.
Qed.

Lemma fold_left_append {A B : Type} (row : A -> list B) (l : list A) :
  forall init,
    fold_left (fun acc a => acc ++ row a) l init = init ++ flat_map row l.
Proof.
  induction l as [|a l IH]; intros init; cbn.
  - rewrite app_nil_r. reflexivity.
  - rewrite IH, app_assoc. reflexivity.
Qed.

Lemma fold_left_pointwise {A B : Type} (f g : B -> A -> B) (l : list A) :
  (forall acc a, f acc a = g acc a) ->
  forall init, fold_left f l init = fold_left g l init.
Proof.
  intros H. induction l as [|a l IH]; intros init; cbn; [reflexivity|].
  rewrite H. apply IH.
Qed.

(** The nested loops collect, row by row, the points of the sampled pixels
    that are foreground. *)
Lemma scanImage_rows (imageData : list Z) (scale : R) :
  scanImage imageData scale =
  flat_map
    (fun y => map (pixelPoint scale y)
                  (filter (fun x => isForeground imageData x y) (stride2 512)))
    (stride2 128).
Proof.
  unfold scanImage.
  generalize (stride2 128) (stride2 512). intros ys xs.
  set (row := fun y => map (pixelPoint scale y)
                  (filter (fun x => isForeground imageData x y) xs)).
  transitivity (fold_left (fun acc y => acc ++ row y) ys []).
  - apply fold_left_pointwise. intros points y. unfold scanPixel, row.
    exact (fold_left_push (fun x => isForeground imageData x y)
                          (pixelPoint scale y) xs points).
  - exact (fold_left_append row ys []).
Qed.

Lemma cyclePoint_nonempty (points : list Vector3.t) (i : nat) :
  (1 <= length points)%nat ->
  exists p, cyclePoint points i = Js.Normal p /\
            nth_error points (i mod length points) = Some p.
Proof.
  intros H. unfold cyclePoint, Js.rem.
  destruct (Nat.eqb_spec (length points) 0) as [E|E]; [lia|].
  cbn [Js.index].
  destruct (nth_error_present points (i mod length points)) as [p Hp].
  { apply Nat.mod_upper_bound. exact E. }
  exists p. rewrite Hp. split; reflexivity.
Qed.

Lemma cyclePoint_empty (i : nat) :
  cyclePoint [] i = Js.Throw Js.TypeError.
Proof. reflexivity. Qed.

Lemma createTextPoints_unfold (env : Env) (text : string) (count : nat) (w : World) :
  createTextPoints env text count w
  = Array_from_at 0 count (fun i => lift (cyclePoint (samples env text w) i)) w.
Proof.
  unfold createTextPoints, getResponsiveScale, bind, get, ret, samples,
    responsiveScale, Array_from.
  reflexivity.
Qed.

(** [createTextPoints] writes no global, whether it returns or throws. *)
Lemma createTextPoints_world (env : Env) (text : string) (count : nat) (w : World) :
  snd (createTextPoints env text count w) = w.
Proof. rewrite createTextPoints_unfold. apply Array_from_lift_world. Qed.

Lemma createTextPoints_length (env : Env) (text : string) (count : nat) (w : World)
    (l : list Vector3.t) :
  fst (createTextPoints env text count w) = Js.Normal l -> length l = count.
Proof.
  rewrite createTextPoints_unfold. intros H.
  apply Array_from_lift_normal in H. tauto.
Qed.

Lemma pair_fst_snd {A B : Type} (p : A * B) (a : A) (b : B) :
  fst p = a -> snd p = b -> p = (a, b).
Proof. destruct p. cbn. congruence. Qed.

Lemma createTextPoints_total (env : Env) (text : string) (count : nat) (w : World) :
  (1 <= length (samples env text w))%nat ->
  exists l, createTextPoints env text count w = (Js.Normal l, w).
Proof.
  intros H.
  destruct (Array_from_lift_total (cyclePoint (samples env text w)) count 0 w) as [l Hl].
  { intros j _. destruct (cyclePoint_nonempty _ (0 + j) H) as [p [Hp _]]. eauto. }
  exists l. apply pair_fst_snd.
  - rewrite createTextPoints_unfold. exact Hl.
  - apply createTextPoints_world.
Qed.

(** C5.  When the text has M sampled foreground pixels, 1 <= M < N, the
    generated set has exactly N points and its element i is element
    (i mod M) of the M samples, for every i < N. *)
Theorem text_points_cycle :
  forall (env : Env) (text : string) (N : nat) (w : World),
    let points := samples env text w in
    let M := length points in
    (1 <= M)%nat -> (M < N)%nat ->
    exists l,
      createTextPoints env text N w = (Js.Normal l, w) /\
      length l = N /\
      forall i, (i < N)%nat ->
        exists p, nth_error l i = Some p /\ nth_error points (i mod M) = Some p.
Proof.
  intros env text N w points M HM _. subst M.
  destruct (createTextPoints_total env text N w HM) as [l Hl].
  exists l. split; [exact Hl|].
  assert (Hf : fst (Array_from_at 0 N (fun i => lift (cyclePoint points i)) w)
               = Js.Normal l).
  { unfold points. rewrite <- createTextPoints_unfold, Hl. reflexivity. }
  apply Array_from_lift_normal in Hf. destruct Hf as [Hlen Hnth].
  split; [exact Hlen|].
  intros i Hi. destruct (Hnth i Hi) as [a [Ha Hg]].
  exists a. split; [exact Ha|].
  destruct (cyclePoint_nonempty points (0 + i) HM) as [p [Hp Hq]].
  rewrite Hp in Hg. injection Hg as ->. exact Hq.
Qed.

Lemma createTextPoints_empty_throws (env : Env) (text : string) (N : nat) (w : World) :
  samples env text w = [] -> N <> 0%nat ->
  createTextPoints env text N w = (Js.Throw Js.TypeError, w).
Proof.
  intros H HN. apply pair_fst_snd; [|apply createTextPoints_world].
  rewrite createTextPoints_unfold, H.
  apply Array_from_lift_throw; [exact HN|reflexivity].
Qed.

(** C2 (as the code has it).  When the text has no sampled foreground
    pixel the cycling fill is not guarded: the index [i % 0] is [NaN], the
    element read at it is [undefined], and for a count of at least one the
    call ends at the first element with the runtime's [TypeError], writing
    no global and producing no point.  For a count of zero it returns the
    empty array. *)
Theorem text_points_blank :
  forall (env : Env) (text : string) (N : nat) (w : World),
    samples env text w = [] ->
    (forall i, Js.rem i (length (samples env text w)) = None) /\
    (forall i, Js.index (samples env text w) (Js.rem i (length (samples env text w)))
               = None) /\
    (N <> 0%nat -> createTextPoints env text N w = (Js.Throw Js.TypeError, w)) /\
    (N = 0%nat -> createTextPoints env text N w = (Js.Normal [], w)).
Proof.
  intros env text N w H.
  split; [rewrite H; reflexivity|]. split; [rewrite H; reflexivity|]. split.
  - intros HN. apply createTextPoints_empty_throws; assumption.
  - intros ->. reflexivity.
Qed.

Lemma PARTICLE_COUNT_pos (env : Env) : (0 < PARTICLE_COUNT env)%nat.
Proof. unfold PARTICLE_COUNT. destruct (isMobile env); lia. Qed.

Lemma filter_none {A : Type} (c : A -> bool) (l : list A) :
  (forall a, c a = false) -> filter c l = [].
Proof.
  intros H. induction l as [|a l IH]; cbn; [reflexivity|].
  rewrite H. exact IH.
Qed.

Lemma scanImage_no_foreground (imageData : list Z) (scale : R) :
  (forall x y, isForeground imageData x y = false) ->
  scanImage imageData scale = [].
Proof.
  intros H. rewrite scanImage_rows.
  generalize (stride2 128) (stride2 512). intros ys xs.
  induction ys as [|y ys IH]; cbn; [reflexivity|].
  rewrite IH, filter_none by (intros x; apply H). reflexivity.
Qed.

Lemma scanImage_foreground (imageData : list Z) (scale : R) (x y : nat) :
  In x (stride2 512) -> In y (stride2 128) ->
  isForeground imageData x y = true ->
  In (pixelPoint scale y x) (scanImage imageData scale).
Proof.
  intros Hx Hy H. rewrite scanImage_rows.
  apply in_flat_map. exists y. split; [exact Hy|].
  apply in_map. apply filter_In. split; assumption.
Qed.

Lemma stride2_length (stop : nat) : length (stride2 stop) = ((stop + 1) / 2)%nat.
Proof. unfold stride2. rewrite length_map, length_seq. reflexivity. Qed.

Lemma stride2_zero (stop : nat) : (0 < stop)%nat -> In 0%nat (stride2 stop).
Proof.
  intros H. unfold stride2. apply in_map_iff. exists 0%nat.
  split; [reflexivity|]. apply in_seq.
  assert ((1 <= (stop + 1) / 2))%nat
    by (apply Nat.div_le_lower_bound; lia).
  lia.
Qed.

Lemma grid_filter_bound {A B C : Type} (c : A -> B -> bool) (f : A -> B -> C)
    (ys : list A) (xs : list B) :
  (length (flat_map (fun y => map (f y) (filter (c y) xs)) ys)
   <= length ys * length xs)%nat.
Proof.
  induction ys as [|y ys IH]; cbn [flat_map length]; [lia|].
  rewrite length_app, length_map.
  pose proof (filter_length_le (c y) xs).
  cbn [Nat.mul]. lia.
Qed.

(** At most one sample per pixel of the 256 x 64 sampling grid. *)
Lemma scanImage_bound (imageData : list Z) (scale : R) :
  (length (scanImage imageData scale) <= 64 * 256)%nat.
Proof.
  rewrite scanImage_rows.
  pose proof (grid_filter_bound (fun y x => isForeground imageData x y)
                (pixelPoint scale) (stride2 128) (stride2 512)) as H.
  rewrite !stride2_length in H.
  change ((128 + 1) / 2)%nat with 64%nat in H.
  change ((512 + 1) / 2)%nat with 256%nat in H.
  exact H.
Qed.

Lemma isForeground_blank (x y : nat) : isForeground blankImage x y = false.
Proof.
  unfold isForeground, blankImage.
  destruct (nth_error (repeat 0%Z (512 * 128 * 4)) ((y * 512 + x) * 4)) as [r|] eqn:E;
    [|reflexivity].
  apply nth_error_In, repeat_spec in E. subst r. reflexivity.
Qed.

Lemma samples_blank (text : string) (w : World) : samples blankEnv text w = [].
Proof.
  unfold samples. apply scanImage_no_foreground. intros x y.
  apply isForeground_blank.
Qed.

Lemma isForeground_dot : isForeground dotImage 0 0 = true.
Proof. reflexivity. Qed.

Lemma samples_dotted (env : Env) (text : string) (w : World) :
  fillText env text = dotImage ->
  (1 <= length (samples env text w) <= 64 * 256)%nat.
Proof.
  intros E. unfold samples. split; [|apply scanImage_bound].
  assert (H : In (pixelPoint (responsiveScale (camera w)) 0 0)
                 (scanImage (fillText env text) (responsiveScale (camera w)))).
  { apply scanImage_foreground; try (apply stride2_zero; lia).
    rewrite E. exact isForeground_dot. }
  destruct (scanImage (fillText env text) (responsiveScale (camera w)));
    [destruct H|cbn; lia].
Qed.

Lemma samples_dot (text : string) (w : World) :
  (1 <= length (samples dotEnv text w) <= 64 * 256)%nat.
Proof. apply samples_dotted. reflexivity. Qed.

Lemma text_points_cycle_witness :
  (1 <= length (samples dotEnv "WILL YOU" (preWorld 1)))%nat /\
  (length (samples dotEnv "WILL YOU" (preWorld 1)) < 20 * 1000)%nat /\
  exists l,
    createTextPoints dotEnv "WILL YOU" (20 * 1000) (preWorld 1)
      = (Js.Normal l, preWorld 1) /\
    length l = (20 * 1000)%nat.
Proof.
  pose proof (samples_dot "WILL YOU" (preWorld 1)) as [H1 H2].
  assert (H3 : (length (samples dotEnv "WILL YOU" (preWorld 1)) < 20 * 1000)%nat) by lia.
  split; [exact H1|]. split; [exact H3|].
  destruct (text_points_cycle dotEnv "WILL YOU" (20 * 1000) (preWorld 1) H1 H3)
    as [l [Hl [Hlen _]]].
  exists l. split; [exact Hl|exact Hlen].
Defined.

Lemma text_points_blank_witness :
  samples blankEnv "WILL YOU" (preWorld 1) = [] /\
  createTextPoints blankEnv "WILL YOU" (PARTICLE_COUNT blankEnv) (preWorld 1)
    = (Js.Throw Js.TypeError, preWorld 1).
Proof.
  pose proof (samples_blank "WILL YOU" (preWorld 1)) as H.
  split; [exact H|].
  pose proof (text_points_blank blankEnv "WILL YOU" (PARTICLE_COUNT blankEnv)
                (preWorld 1) H) as [_ [_ [T _]]].
  apply T. pose proof (PARTICLE_COUNT_pos blankEnv). lia.
Defined.

(** C2 as claimed fails: for the blank canvas and the desktop particle
    count the cycling fill does take the remainder by zero (the index is
    [NaN]) and the call ends with the runtime's [TypeError], not with an
    error raised by the script. *)
Lemma blank_text_is_type_error :
  length (samples blankEnv "WILL YOU" (preWorld 1)) = 0%nat /\
  Js.rem 0 (length (samples blankEnv "WILL YOU" (preWorld 1))) = None /\
  createTextPoints blankEnv "WILL YOU" (PARTICLE_COUNT blankEnv) (preWorld 1)
    = (Js.Throw Js.TypeError, preWorld 1) /\
  ~ (exists message,
       fst (createTextPoints blankEnv "WILL YOU" (PARTICLE_COUNT blankEnv) (preWorld 1))
       = Js.Throw (Js.UserError message)).
Proof.
  pose proof (samples_blank "WILL YOU" (preWorld 1)) as H.
  assert (T : createTextPoints blankEnv "WILL YOU" (PARTICLE_COUNT blankEnv) (preWorld 1)
              = (Js.Throw Js.TypeError, preWorld 1)).
  { apply createTextPoints_empty_throws; [exact H|].
    pose proof (PARTICLE_COUNT_pos blankEnv). lia. }
  rewrite H. split; [reflexivity|]. split; [reflexivity|]. split; [exact T|].
  rewrite T. intros [message Hm]. discriminate Hm.
Qed.

(* ===================================================================== *)
(** * Properties: the random shapes *)
(* ===================================================================== *)

Lemma world_eta (w : World) : set_draws (draws w) w = w.
Proof. destruct w. reflexivity. Qed.

Lemma PARTICLE_COUNT_INR (env : Env) :
  INR (PARTICLE_COUNT env) = if isMobile env then 8000 else 15000.
Proof.
  rewrite INR_IZR_INZ. unfold PARTICLE_COUNT.
  destruct (isMobile env).
  - replace (Z.of_nat (8 * 1000)) with 8000%Z by reflexivity. reflexivity.
  - replace (Z.of_nat (15 * 1000)) with 15000%Z by reflexivity. reflexivity.
Qed.

Lemma coreCount_value (env : Env) :
  coreCount env = if isMobile env then (32 * 100)%nat else (6 * 1000)%nat.
Proof.
  unfold coreCount, PARTICLE_COUNT. destruct (isMobile env); reflexivity.
Qed.

Lemma core_ring_split (env : Env) :
  (coreCount env + ringCount env = PARTICLE_COUNT env)%nat /\
  INR (coreCount env) = 0.4 * INR (PARTICLE_COUNT env) /\
  INR (ringCount env) = 0.6 * INR (PARTICLE_COUNT env).
Proof.
  rewrite !INR_IZR_INZ.
  unfold coreCount, ringCount, PARTICLE_COUNT. destruct (isMobile env).
  - split; [reflexivity|].
    replace (Z.of_nat (8 * 1000 * 2 / 5)) with 3200%Z by reflexivity.
    replace (Z.of_nat (8 * 1000 * 3 / 5)) with 4800%Z by reflexivity.
    replace (Z.of_nat (8 * 1000)) with 8000%Z by reflexivity.
    split; lra.
  - split; [reflexivity|].
    replace (Z.of_nat (15 * 1000 * 2 / 5)) with 6000%Z by reflexivity.
    replace (Z.of_nat (15 * 1000 * 3 / 5)) with 9000%Z by reflexivity.
    replace (Z.of_nat (15 * 1000)) with 15000%Z by reflexivity.
    split; lra.
Qed.

(** The test [i < PARTICLE_COUNT * 0.4] of [saturnPoint] selects the first
    [coreCount] indices. *)
Lemma core_test (env : Env) (i : nat) :
  Js.lt (INR i) (INR (PARTICLE_COUNT env) * 0.4) = true <-> (i < coreCount env)%nat.
Proof.
  destruct (core_ring_split env) as [_ [Hc _]].
  replace (INR (PARTICLE_COUNT env) * 0.4) with (INR (coreCount env)) by lra.
  unfold Js.lt.
  destruct (Rlt_dec (INR i) (INR (coreCount env))) as [H|H].
  - split; [intros _; apply INR_lt; exact H|reflexivity].
  - split; [discriminate|]. intros Hi. exfalso. apply H. apply lt_INR. exact Hi.
Qed.

Lemma randomPoint_run (env : Env) (w : World) :
  randomPoint env w
  = (Js.Normal (cloudPoint env (draws w)), set_draws (S (S (S (draws w)))) w).
Proof.
  unfold randomPoint, Math_random, bind, get, modify, ret, cloudPoint. reflexivity.
Qed.

Lemma saturnPoint_core (env : Env) (i : nat) (w : World) :
  (i < coreCount env)%nat ->
  saturnPoint env i w = (Js.Normal (corePoint env i), w).
Proof.
  intros H. apply core_test in H. unfold saturnPoint. rewrite H. reflexivity.
Qed.

Lemma saturnPoint_ring (env : Env) (i : nat) (w : World) :
  (coreCount env <= i)%nat ->
  saturnPoint env i w
  = (Js.Normal (ringPoint env (draws w)), set_draws (S (S (S (draws w)))) w).
Proof.
  intros H. unfold saturnPoint.
  destruct (Js.lt (INR i) (INR (PARTICLE_COUNT env) * 0.4)) eqn:E.
  - apply core_test in E. lia.
  - unfold Math_random, bind, get, modify, ret, ringPoint, ringAngle, ringRadius,
      ringHeight, scaleFactor.
    reflexivity.
Qed.

Section DrawingCallback.

Context {A : Type} (f : nat -> M A) (G : nat -> A -> Prop).

(** The callback always returns, writes nothing but the count of random
    draws, and its value at [i] satisfies [G i]. *)
Hypothesis callback_draws :
  forall i w, exists a d, f i w = (Js.Normal a, set_draws d w) /\ G i a.

Lemma Array_from_drawing (n start : nat) (w : World) :
  exists l d,
    Array_from_at start n f w = (Js.Normal l, set_draws d w) /\
    length l = n /\
    forall j, (j < n)%nat -> exists a, nth_error l j = Some a /\ G (start + j) a.
Proof.
  revert start w. induction n as [|n IH]; intros start w.
  - exists [], (draws w). cbn [Array_from_at]. unfold ret.
    rewrite world_eta. split; [reflexivity|]. split; [reflexivity|].
    intros j Hj. lia.
  - destruct (callback_draws start w) as [a [d1 [Ha HG]]].
    destruct (IH (S start) (set_draws d1 w)) as [l [d [Hl [Hlen Hnth]]]].
    exists (a :: l), d. cbn [Array_from_at].
    rewrite (bind_normal _ _ _ _ _ Ha).
    rewrite (bind_normal _ _ _ _ _ Hl).
    split; [reflexivity|]. split; [cbn; lia|].
    intros [|j] Hj.
    + exists a. rewrite Nat.add_0_r. split; [reflexivity|exact HG].
    + destruct (Hnth j) as [b [Hb HGb]]; [lia|].
      exists b. split; [exact Hb|].
      replace (start + S j)%nat with (S start + j)%nat by lia. exact HGb.
Qed.

End DrawingCallback.

(** The dispersed cloud: [Array.from] returns one point per index. *)
Lemma randomPoints_run (env : Env) (n : nat) (w : World) :
  exists l d,
    Array_from n (fun _ => randomPoint env) w = (Js.Normal l, set_draws d w) /\
    length l = n /\
    forall j, (j < n)%nat -> exists k, nth_error l j = Some (cloudPoint env k).
Proof.
  destruct (Array_from_drawing (fun _ => randomPoint env)
              (fun _ a => exists k, a = cloudPoint env k)) with (n := n) (start := 0%nat)
              (w := w) as [l [d [Hl [Hlen Hnth]]]].
  { intros _ w0. exists (cloudPoint env (draws w0)), (S (S (S (draws w0)))).
    split; [apply randomPoint_run|eauto]. }
  exists l, d. split; [exact Hl|]. split; [exact Hlen|].
  intros j Hj. destruct (Hnth j Hj) as [a [Ha [k ->]]]. eauto.
Qed.

(** The planet: [Array.from] returns a planet shape. *)
Lemma saturnPoints_run (env : Env) (w : World) :
  exists l d,
    Array_from (PARTICLE_COUNT env) (saturnPoint env) w = (Js.Normal l, set_draws d w) /\
    planetShape env l.
Proof.
  destruct (Array_from_drawing (saturnPoint env)
              (fun i a => ((i < coreCount env)%nat -> a = corePoint env i) /\
                          ((coreCount env <= i)%nat -> exists k, a = ringPoint env k)))
    with (n := PARTICLE_COUNT env) (start := 0%nat) (w := w)
    as [l [d [Hl [Hlen Hnth]]]].
  { intros i w0. destruct (Nat.lt_ge_cases i (coreCount env)) as [Hi|Hi].
    - exists (corePoint env i), (draws w0). rewrite world_eta.
      split; [apply saturnPoint_core; exact Hi|].
      split; [reflexivity|intros; lia].
    - exists (ringPoint env (draws w0)), (S (S (S (draws w0)))).
      split; [apply saturnPoint_ring; exact Hi|].
      split; [intros; lia|eauto]. }
  exists l, d. split; [exact Hl|]. split; [exact Hlen|]. split.
  - intros i Hi.
    destruct (core_ring_split env) as [Hsum _].
    destruct (Hnth i) as [a [Ha [Hcore _]]]; [lia|].
    cbn in Hcore. rewrite Ha, (Hcore Hi). reflexivity.
  - intros i [Hi1 Hi2].
    destruct (Hnth i Hi2) as [a [Ha [_ Hring]]].
    destruct (Hring Hi1) as [k ->]. eauto.
Qed.

(* ===================================================================== *)
(** * Properties: [initShapes] *)
(* ===================================================================== *)

Lemma createTextPoints_pair (env : Env) (text : string) (n : nat) (w : World) :
  createTextPoints env text n w = (fst (createTextPoints env text n w), w).
Proof. apply pair_fst_snd; [reflexivity|apply createTextPoints_world]. Qed.

Lemma createTextPoints_returns (env : Env) (text : string) (w : World) :
  (exists l, fst (createTextPoints env text (PARTICLE_COUNT env) w) = Js.Normal l)
  <-> (1 <= length (samples env text w))%nat.
Proof.
  split.
  - intros [l Hl].
    destruct (samples env text w) as [|p ps] eqn:E; [|cbn; lia].
    rewrite (createTextPoints_empty_throws env text _ w E) in Hl; [discriminate|].
    pose proof (PARTICLE_COUNT_pos env). lia.
  - intros H. destruct (createTextPoints_total env text (PARTICLE_COUNT env) w H) as [l Hl].
    exists l. rewrite Hl. reflexivity.
Qed.

(** One text shape: generate, then assign; a throw skips the assignment. *)
Lemma text_step {B : Type} (env : Env) (text : string)
    (set : list Vector3.t -> Shapes -> Shapes) (k : M B) (w : World) :
  bind (createTextPoints env text (PARTICLE_COUNT env))
       (fun l => bind (assign (set l)) (fun _ => k)) w
  = match fst (createTextPoints env text (PARTICLE_COUNT env) w) with
    | Js.Normal l => k (set_shapes (set l (shapes w)) w)
    | Js.Throw e => (Js.Throw e, w)
    end.
Proof.
  unfold bind at 1. rewrite createTextPoints_pair.
  destruct (fst (createTextPoints env text (PARTICLE_COUNT env) w)); reflexivity.
Qed.

Lemma samples_camera (env : Env) (text : string) (w w' : World) :
  camera w' = camera w -> samples env text w' = samples env text w.
Proof. unfold samples. intros ->. reflexivity. Qed.

Lemma getResponsiveScale_run (w : World) :
  getResponsiveScale w = (Js.Normal (responsiveScale (camera w)), w).
Proof. unfold getResponsiveScale, bind, get, ret, responsiveScale. reflexivity. Qed.

Lemma assign_run (f : Shapes -> Shapes) (w : World) :
  assign f w = (Js.Normal tt, set_shapes (f (shapes w)) w).
Proof. reflexivity. Qed.

Lemma text_throws_not_drawn (env : Env) (text : string) (w w0 : World) (e : Js.Error) :
  camera w = camera w0 ->
  fst (createTextPoints env text (PARTICLE_COUNT env) w) = Js.Throw e ->
  ~ (1 <= length (samples env text w0))%nat.
Proof.
  intros Hc He H. rewrite <- (samples_camera env text w0 w Hc) in H.
  apply createTextPoints_returns in H. destruct H as [l Hl]. congruence.
Qed.

Lemma text_returns_drawn (env : Env) (text : string) (w w0 : World) (l : list Vector3.t) :
  camera w = camera w0 ->
  fst (createTextPoints env text (PARTICLE_COUNT env) w) = Js.Normal l ->
  (1 <= length (samples env text w0))%nat /\ length l = PARTICLE_COUNT env.
Proof.
  intros Hc Hl. split.
  - rewrite <- (samples_camera env text w0 w Hc).
    apply createTextPoints_returns. eauto.
  - apply createTextPoints_length in Hl. exact Hl.
Qed.

(** What [initShapes] leaves behind: only the point sets and the count of
    random draws change; sets that were ready stay ready when it throws,
    all sets are ready when it returns, and it returns exactly when every
    text has a foreground sample. *)
Lemma initShapes_run (env : Env) (w : World) :
  exists s d,
    snd (initShapes env w) = set_draws d (set_shapes s w) /\
    (shapesReady env (shapes w) -> shapesReady env s) /\
    (fst (initShapes env w) = Js.Normal tt -> shapesReady env s) /\
    (fst (initShapes env w) = Js.Normal tt <-> textsDrawn env w).
Proof.
  unfold initShapes.
  rewrite (bind_normal _ _ _ _ _ (getResponsiveScale_run w)).
  rewrite text_step.
  destruct (fst (createTextPoints env "WILL YOU" (PARTICLE_COUNT env) w))
    as [l1|e] eqn:E1.
  2:{ exists (shapes w), (draws w). cbn [fst snd].
      split; [destruct w; reflexivity|]. split; [tauto|].
      split; [discriminate|]. split; [discriminate|].
      intros [H _]. exfalso.
      exact (text_throws_not_drawn env _ w w e eq_refl E1 H). }
  destruct (text_returns_drawn env _ w w l1 eq_refl E1) as [D1 L1].
  rewrite text_step.
  match goal with |- context [createTextPoints env "BE MY" _ ?w1] => set (W1 := w1) end.
  destruct (fst (createTextPoints env "BE MY" (PARTICLE_COUNT env) W1))
    as [l2|e] eqn:E2.
  2:{ exists (shapes W1), (draws w). cbn [fst snd].
      split; [subst W1; destruct w; reflexivity|].
      split; [unfold shapesReady; cbn; tauto|].
      split; [discriminate|]. split; [discriminate|].
      intros [_ [H _]]. exfalso.
      exact (text_throws_not_drawn env _ W1 w e eq_refl E2 H). }
  destruct (text_returns_drawn env _ W1 w l2 eq_refl E2) as [D2 L2].
  rewrite text_step.
  match goal with |- context [createTextPoints env "VALENTINE?" _ ?w2] => set (W2 := w2) end.
  destruct (fst (createTextPoints env "VALENTINE?" (PARTICLE_COUNT env) W2))
    as [l3|e] eqn:E3.
  2:{ exists (shapes W2), (draws w). cbn [fst snd].
      split; [subst W2 W1; destruct w; reflexivity|].
      split; [unfold shapesReady; cbn; tauto|].
      split; [discriminate|]. split; [discriminate|].
      intros [_ [_ H]]. exfalso.
      exact (text_throws_not_drawn env _ W2 w e eq_refl E3 H). }
  destruct (text_returns_drawn env _ W2 w l3 eq_refl E3) as [D3 L3].
  match goal with |- context [bind _ _ ?w3] => set (W3 := w3) end.
  destruct (randomPoints_run env (PARTICLE_COUNT env) W3) as [lr [dr [Hr [Lr _]]]].
  rewrite (bind_normal _ _ _ _ _ Hr).
  rewrite (bind_normal _ _ _ _ _ (assign_run _ _)).
  match goal with |- context [bind _ _ ?w4] => set (W4 := w4) end.
  destruct (saturnPoints_run env W4) as [ls [ds [Hs Ps]]].
  rewrite (bind_normal _ _ _ _ _ Hs).
  rewrite assign_run. cbn [fst snd].
  exists (mkShapes l1 l2 l3 ls lr), ds.
  split; [reflexivity|].
  assert (Hready : shapesReady env (mkShapes l1 l2 l3 ls lr))
    by (unfold shapesReady; cbn; tauto).
  split; [intros _; exact Hready|]. split; [intros _; exact Hready|].
  split; [intros _; unfold textsDrawn; tauto|reflexivity].
Qed.

(* ===================================================================== *)
(** * Properties: the particle loop *)
(* ===================================================================== *)

Lemma store_length {A : Type} (arr : list A) (k : nat) (v : A) :
  length (Js.store arr k v) = length arr.
Proof.
  revert k. induction arr as [|a arr IH]; intros [|k]; cbn; try reflexivity.
  rewrite IH. reflexivity.
Qed.

Lemma store_same {A : Type} (arr : list A) (k : nat) (v : A) :
  (k < length arr)%nat -> nth_error (Js.store arr k v) k = Some v.
Proof.
  revert k. induction arr as [|a arr IH]; intros [|k] H; cbn in *; try lia.
  - reflexivity.
  - apply IH. lia.
Qed.

Lemma store_other {A : Type} (arr : list A) (k j : nat) (v : A) :
  j <> k -> nth_error (Js.store arr k v) j = nth_error arr j.
Proof.
  revert k j. induction arr as [|a arr IH]; intros [|k] [|j] H; cbn;
    try reflexivity; try congruence.
  apply IH. congruence.
Qed.

Lemma update_length {A : Type} (arr : list A) (k : nat) (f : A -> A) :
  length (Js.update arr k f) = length arr.
Proof.
  unfold Js.update. destruct (nth_error arr k); [apply store_length|reflexivity].
Qed.

Lemma update_same {A : Type} (arr : list A) (k : nat) (f : A -> A) :
  nth_error (Js.update arr k f) k = option_map f (nth_error arr k).
Proof.
  unfold Js.update. destruct (nth_error arr k) as [v|] eqn:E; cbn.
  - apply store_same. apply nth_error_Some. congruence.
  - exact E.
Qed.

Lemma update_other {A : Type} (arr : list A) (k j : nat) (f : A -> A) :
  j <> k -> nth_error (Js.update arr k f) j = nth_error arr j.
Proof.
  intros H. unfold Js.update.
  destruct (nth_error arr k); [apply store_other; exact H|reflexivity].
Qed.

Lemma movedArray_length (c : Vector3.t) (drift : R) (i : nat) (arr : list R) :
  length (movedArray c drift i arr) = length arr.
Proof. unfold movedArray. rewrite !update_length. reflexivity. Qed.

Lemma movedArray_hit (c : Vector3.t) (drift : R) (i a : nat) (arr : list R) :
  (a < 3)%nat ->
  nth_error (movedArray c drift i arr) (i * 3 + a)
  = option_map (eased (axis a c) drift) (nth_error arr (i * 3 + a)).
Proof.
  intros Ha. unfold movedArray.
  destruct a as [|[|[|a]]]; [| | |lia]; cbn [axis].
  - rewrite Nat.add_0_r.
    rewrite update_other, update_other, update_same by lia. reflexivity.
  - rewrite update_other, update_same, update_other by lia. reflexivity.
  - rewrite update_same, update_other, update_other by lia. reflexivity.
Qed.

Lemma movedArray_miss (c : Vector3.t) (drift : R) (i j : nat) (arr : list R) :
  (j < i * 3 \/ i * 3 + 3 <= j)%nat ->
  nth_error (movedArray c drift i arr) j = nth_error arr j.
Proof.
  intros H. unfold movedArray. rewrite !update_other by lia. reflexivity.
Qed.

Lemma moveParticle_run (targetSet : option (list Vector3.t)) (i : nat) (w : World)
    (c : Vector3.t) :
  nth_error (targetsOf w targetSet) i = Some c ->
  moveParticle targetSet i w
  = (Js.Normal tt,
     set_posArray (movedArray c (driftOf w targetSet i) i (posArray w)) w).
Proof.
  intros H. unfold moveParticle, targetsOf, driftOf in *.
  unfold bind at 1. unfold get at 1.
  destruct targetSet as [set|]; rewrite H; reflexivity.
Qed.

Lemma moveParticle_throw (targetSet : option (list Vector3.t)) (i : nat) (w : World) :
  nth_error (targetsOf w targetSet) i = None ->
  moveParticle targetSet i w = (Js.Throw Js.TypeError, w).
Proof.
  intros H. unfold moveParticle, targetsOf in *.
  unfold bind at 1. unfold get at 1.
  destruct targetSet as [set|]; rewrite H; reflexivity.
Qed.

Lemma set_posArray_eta (w : World) : set_posArray (posArray w) w = w.
Proof. destruct w. reflexivity. Qed.

(** With a target for every particle the loop returns; its effect on
    [posArray] is [morphedArray] and it writes nothing else. *)
Lemma forEach_moveParticle (targetSet : option (list Vector3.t)) (n : nat) :
  forall (start : nat) (w : World),
    (start + n <= length (targetsOf w targetSet))%nat ->
    forEach (seq start n) (moveParticle targetSet) w
    = (Js.Normal tt,
       set_posArray
         (morphedArray (targetsOf w targetSet) (driftOf w targetSet)
                       (seq start n) (posArray w)) w).
Proof.
  induction n as [|n IH]; intros start w H.
  - cbn. unfold ret. rewrite set_posArray_eta. reflexivity.
  - cbn [seq forEach].
    destruct (nth_error_present (targetsOf w targetSet) start) as [c Hc]; [lia|].
    rewrite (bind_normal _ _ _ _ _ (moveParticle_run targetSet start w c Hc)).
    rewrite IH.
    + unfold morphedArray. cbn [fold_left].
      rewrite (nth_error_nth _ _ Vector3.zero Hc).
      destruct targetSet; reflexivity.
    + destruct targetSet; cbn in *; lia.
Qed.

Lemma morphedArray_length (L : list Vector3.t) (drift : nat -> R) (indices : list nat) :
  forall arr, length (morphedArray L drift indices arr) = length arr.
Proof.
  unfold morphedArray. induction indices as [|i indices IH]; intros arr; cbn.
  - reflexivity.
  - rewrite IH. apply movedArray_length.
Qed.

Lemma morphedArray_before (L : list Vector3.t) (drift : nat -> R) (n : nat) :
  forall (start : nat) (arr : list R) (j : nat),
    (j < start * 3)%nat ->
    nth_error (morphedArray L drift (seq start n) arr) j = nth_error arr j.
Proof.
  unfold morphedArray. induction n as [|n IH]; intros start arr j H; cbn.
  - reflexivity.
  - rewrite IH by lia. apply movedArray_miss. lia.
Qed.

(** Every coordinate of every particle in the range moves by one eased
    step toward its own target coordinate. *)
Lemma morphedArray_nth (L : list Vector3.t) (drift : nat -> R) (n : nat) :
  forall (start : nat) (arr : list R) (i a : nat),
    (a < 3)%nat -> (start <= i < start + n)%nat ->
    nth_error (morphedArray L drift (seq start n) arr) (i * 3 + a)
    = option_map (eased (axis a (nth i L Vector3.zero)) (drift i))
                 (nth_error arr (i * 3 + a)).
Proof.
  induction n as [|n IH]; intros start arr i a Ha Hi; [lia|].
  destruct (Nat.eq_dec i start) as [->|Hne].
  - unfold morphedArray. cbn [seq fold_left].
    fold (morphedArray L drift (seq (S start) n)
            (movedArray (nth start L Vector3.zero) (drift start) start arr)).
    rewrite morphedArray_before by lia.
    apply movedArray_hit. exact Ha.
  - unfold morphedArray. cbn [seq fold_left].
    fold (morphedArray L drift (seq (S start) n)
            (movedArray (nth start L Vector3.zero) (drift start) start arr)).
    rewrite IH by lia.
    rewrite movedArray_miss by lia. reflexivity.
Qed.

(** [animate] returns when the set it reads has a point per particle. *)
Lemma animate_run (env : Env) (w : World) :
  (PARTICLE_COUNT env
   <= length (targetsOf (set_time (time w + 0.01) w)
                        (selectTarget (set_time (time w + 0.01) w))))%nat ->
  animate env w = (Js.Normal tt, animated env w).
Proof.
  intros H. unfold animate.
  unfold bind at 1. unfold modify at 1.
  unfold bind at 1. unfold get at 1.
  unfold bind at 1. unfold modify at 1.
  rewrite forEach_moveParticle.
  - unfold animated. destruct (selectTarget (set_time (time w + 0.01) w)); reflexivity.
  - destruct (selectTarget (set_time (time w + 0.01) w)); cbn in *; lia.
Qed.

(* ===================================================================== *)
(** * Properties: invariants of the running script *)
(* ===================================================================== *)

(** The landmark handler writes the gesture and the x and y components of
    the displacement, or blends the displacement toward zero; nothing
    else, whether it returns or throws. *)
Lemma onResults_frame (r : Results) (w : World) :
  let w' := snd (onResults r w) in
  camera w' = camera w /\ draws w' = draws w /\ shapes w' = shapes w /\
  posArray w' = posArray w /\ position w' = position w /\ time w' = time w /\
  (Vector3.z (handDisplacement w) = 0 -> Vector3.z (handDisplacement w') = 0).
Proof.
  unfold onResults.
  destruct (multiHandLandmarks r) as [[|lm others]|].
  - cbn. repeat split. intros H. rewrite H. lra.
  - unfold landmark, bind, lift, modify.
    destruct (nth_error lm 0); [|cbn; repeat split; tauto].
    destruct (nth_error lm 8); [|cbn; repeat split; tauto].
    destruct (nth_error lm 6); [|cbn; repeat split; tauto].
    destruct (nth_error lm 12); [|cbn; repeat split; tauto].
    destruct (nth_error lm 10); [|cbn; repeat split; tauto].
    destruct (nth_error lm 20); [|cbn; repeat split; tauto].
    destruct (nth_error lm 18); [|cbn; repeat split; tauto].
    destruct (nth_error lm 4); [|cbn; repeat split; tauto].
    destruct (nth_error lm 2); cbn; repeat split; tauto.
  - cbn. repeat split. intros H. rewrite H. lra.
Qed.

Lemma ready_targets (env : Env) (w : World) (t : R) :
  shapesReady env (shapes w) ->
  (PARTICLE_COUNT env
   <= length (targetsOf (set_time t w) (selectTarget (set_time t w))))%nat.
Proof.
  intros [H1 [H2 [H3 [H4 [H5 _]]]]].
  unfold targetsOf, selectTarget. cbn [currentGesture shapes set_time].
  destruct (currentGesture w); lia.
Qed.

Lemma animated_frame (env : Env) (w : World) :
  camera (animated env w) = camera w /\
  draws (animated env w) = draws w /\
  shapes (animated env w) = shapes w /\
  currentGesture (animated env w) = currentGesture w /\
  handDisplacement (animated env w) = handDisplacement w /\
  time (animated env w) = time w + 0.01 /\
  position (animated env w)
    = Vector3.lerp (position w) (handDisplacement w) ELASTICITY /\
  length (posArray (animated env w)) = length (posArray w).
Proof.
  unfold animated. cbn. rewrite morphedArray_length. repeat split.
Qed.

Lemma animate_keeps (env : Env) (w : World) :
  ready env w -> planar w ->
  animate env w = (Js.Normal tt, animated env w) /\
  ready env (animated env w) /\ planar (animated env w).
Proof.
  intros [Hs Hp] [Hz Hq].
  split; [apply animate_run, ready_targets; exact Hs|].
  destruct (animated_frame env w) as [_ [_ [F1 [_ [F2 [_ [F3 F4]]]]]]].
  unfold ready, planar. rewrite F1, F2, F3, F4.
  split; [split; [exact Hs|exact Hp]|]. split; [exact Hz|].
  unfold Vector3.lerp, ELASTICITY. cbn. rewrite Hz, Hq. lra.
Qed.

Lemma onResize_unfold (env : Env) (newAspect : R) (w : World) :
  onResize env newAspect w
  = initShapes env
      (set_camera (mkCamera (fov (camera w)) newAspect (camera_position_z (camera w))) w).
Proof. unfold onResize, bind, modify. reflexivity. Qed.

Lemma onResize_keeps (env : Env) (newAspect : R) (w : World) :
  ready env w -> planar w ->
  ready env (snd (onResize env newAspect w)) /\
  planar (snd (onResize env newAspect w)).
Proof.
  intros [Hs Hp] Hz. rewrite onResize_unfold.
  match goal with |- context [initShapes env ?w1] => set (W1 := w1) end.
  destruct (initShapes_run env W1) as [s [d [Hw [Hkeep _]]]].
  rewrite Hw. unfold ready, planar. cbn.
  split; [split; [apply Hkeep; exact Hs|exact Hp]|exact Hz].
Qed.

Lemma main_normal (env : Env) (w0 w1 : World) :
  initShapes env w0 = (Js.Normal tt, w1) ->
  main env w0 = animate env (set_posArray (repeat 0 (PARTICLE_COUNT env * 3)) w1).
Proof. intros E. unfold main, bind, modify. rewrite E. reflexivity. Qed.

Lemma main_throw (env : Env) (w0 w1 : World) (e : Js.Error) :
  initShapes env w0 = (Js.Throw e, w1) -> main env w0 = (Js.Throw e, w1).
Proof. intros E. unfold main, bind. rewrite E. reflexivity. Qed.

(** The script loads exactly when each text has a foreground sample, and
    then starts out ready and planar. *)
Lemma main_run (env : Env) (aspect0 : R) :
  (fst (main env (preWorld aspect0)) = Js.Normal tt
   <-> textsDrawn env (preWorld aspect0)) /\
  (fst (main env (preWorld aspect0)) = Js.Normal tt ->
   ready env (loaded env aspect0) /\ planar (loaded env aspect0)).
Proof.
  unfold loaded.
  destruct (initShapes_run env (preWorld aspect0)) as [s [d [Hw [_ [Hready Hiff]]]]].
  destruct (initShapes env (preWorld aspect0)) as [[[]|e] w1] eqn:E;
    cbn [fst snd] in Hw, Hready, Hiff.
  - rewrite (main_normal _ _ _ E).
    set (W2 := set_posArray (repeat 0 (PARTICLE_COUNT env * 3)) w1).
    assert (R2 : ready env W2).
    { subst W2 w1. split; [exact (Hready eq_refl)|].
      cbn. apply repeat_length. }
    assert (P2 : planar W2) by (subst W2 w1; split; reflexivity).
    destruct (animate_keeps env W2 R2 P2) as [Ha [R3 P3]].
    rewrite Ha. cbn [fst snd].
    split; [split; [intros _; apply Hiff; reflexivity|reflexivity]|].
    intros _. split; assumption.
  - rewrite (main_throw _ _ _ _ E). cbn [fst].
    split; [|discriminate].
    split; [discriminate|]. intros H. apply Hiff in H. discriminate H.
Qed.

(** Every reachable world is ready and planar. *)
Lemma reachable_keeps (env : Env) (w : World) :
  reachable env w -> ready env w /\ planar w.
Proof.
  induction 1 as [aspect0 w Hmain|w e _ [IHr IHp]].
  - destruct (main_run env aspect0) as [_ H].
    unfold loaded in H. rewrite Hmain in H. apply H. reflexivity.
  - unfold step. destruct e as [results| |newAspect]; cbn [handle].
    + pose proof (onResults_frame results w) as F. cbv zeta in F.
      destruct F as [_ [_ [F1 [F2 [F3 [_ F4]]]]]].
      destruct IHr as [Hs Hp]. destruct IHp as [Hz Hq].
      unfold ready, planar. rewrite F1, F2, F3.
      split; [split; [exact Hs|exact Hp]|]. split; [exact (F4 Hz)|exact Hq].
    + destruct (animate_keeps env w IHr IHp) as [Ha [R P]].
      rewrite Ha. split; assumption.
    + apply onResize_keeps; assumption.
Qed.

Lemma loaded_reachable (env : Env) (aspect0 : R) :
  textsDrawn env (preWorld aspect0) -> reachable env (loaded env aspect0).
Proof.
  intros H. apply reachable_main with (aspect0 := aspect0).
  apply pair_fst_snd; [|reflexivity].
  apply (main_run env aspect0). exact H.
Qed.

Lemma dot_drawn (m : bool) (rand : nat -> R) (w : World) :
  textsDrawn (mkEnv m (fun _ => dotImage) rand) w.
Proof.
  unfold textsDrawn.
  split; [|split]; apply samples_dotted; reflexivity.
Qed.

(** C9.  In every reachable world each of the five point sets has exactly
    [PARTICLE_COUNT] points, as many as the particle buffer has particles
    (three numbers each); every run of [initShapes] that returns leaves
    such sets, and so does the resize listener, returning or not. *)
Theorem point_sets_have_particle_count :
  forall (env : Env) (w : World),
    reachable env w ->
    length (willYouPoints (shapes w)) = PARTICLE_COUNT env /\
    length (beMyPoints (shapes w)) = PARTICLE_COUNT env /\
    length (valentinesPoints (shapes w)) = PARTICLE_COUNT env /\
    length (saturnPoints (shapes w)) = PARTICLE_COUNT env /\
    length (randomPoints (shapes w)) = PARTICLE_COUNT env /\
    length (posArray w) = (PARTICLE_COUNT env * 3)%nat /\
    (forall newAspect,
       let w' := step env w (Resize newAspect) in
       length (willYouPoints (shapes w')) = PARTICLE_COUNT env /\
       length (beMyPoints (shapes w')) = PARTICLE_COUNT env /\
       length (valentinesPoints (shapes w')) = PARTICLE_COUNT env /\
       length (saturnPoints (shapes w')) = PARTICLE_COUNT env /\
       length (randomPoints (shapes w')) = PARTICLE_COUNT env /\
       length (posArray w') = (PARTICLE_COUNT env * 3)%nat) /\
    (forall w0,
       fst (initShapes env w0) = Js.Normal tt ->
       let s := shapes (snd (initShapes env w0)) in
       length (willYouPoints s) = PARTICLE_COUNT env /\
       length (beMyPoints s) = PARTICLE_COUNT env /\
       length (valentinesPoints s) = PARTICLE_COUNT env /\
       length (saturnPoints s) = PARTICLE_COUNT env /\
       length (randomPoints s) = PARTICLE_COUNT env).
Proof.
  intros env w Hw.
  assert (L : forall v, reachable env v ->
            length (willYouPoints (shapes v)) = PARTICLE_COUNT env /\
            length (beMyPoints (shapes v)) = PARTICLE_COUNT env /\
            length (valentinesPoints (shapes v)) = PARTICLE_COUNT env /\
            length (saturnPoints (shapes v)) = PARTICLE_COUNT env /\
            length (randomPoints (shapes v)) = PARTICLE_COUNT env /\
            length (posArray v) = (PARTICLE_COUNT env * 3)%nat).
  { intros v Hv.
    destruct (reachable_keeps env v Hv) as [[[H1 [H2 [H3 [H4 [H5 _]]]]] Hp] _].
    tauto. }
  destruct (L w Hw) as [H1 [H2 [H3 [H4 [H5 H6]]]]].
  repeat (split; [assumption|]). split.
  - intros newAspect. apply L. apply reachable_step. exact Hw.
  - intros w0 H0 s.
    destruct (initShapes_run env w0) as [s' [d [Hs [_ [Hready _]]]]].
    destruct (Hready H0) as [G1 [G2 [G3 [G4 [G5 _]]]]].
    unfold s. rewrite Hs. cbn. tauto.
Qed.

Lemma point_sets_have_particle_count_witness :
  reachable dotEnv (loaded dotEnv 1) /\
  length (saturnPoints (shapes (loaded dotEnv 1))) = PARTICLE_COUNT dotEnv /\
  length (posArray (loaded dotEnv 1)) = (PARTICLE_COUNT dotEnv * 3)%nat.
Proof.
  assert (H : reachable dotEnv (loaded dotEnv 1))
    by (apply loaded_reachable, dot_drawn).
  split; [exact H|].
  destruct (point_sets_have_particle_count dotEnv (loaded dotEnv 1) H)
    as [_ [_ [_ [T4 [_ [T6 _]]]]]].
  split; [exact T4|exact T6].
Defined.

(** C10.  The displacement starts with z = 0 and in every reachable world
    its z component is exactly 0: a frame with a hand leaves z as it is
    (returning or throwing), a frame without a hand blends 0 with 0; hence
    the cloud's translation, eased toward the displacement by [animate],
    also keeps z = 0, whatever event comes next. *)
Theorem displacement_stays_planar :
  forall (env : Env) (w : World),
    reachable env w ->
    (forall aspect0, Vector3.z (handDisplacement (preWorld aspect0)) = 0) /\
    Vector3.z (handDisplacement w) = 0 /\
    Vector3.z (position w) = 0 /\
    (forall lm others,
       Vector3.z (handDisplacement (snd (onResults (handFrame lm others) w)))
       = Vector3.z (handDisplacement w)) /\
    (forall e,
       Vector3.z (handDisplacement (step env w e)) = 0 /\
       Vector3.z (position (step env w e)) = 0).
Proof.
  intros env w Hw.
  destruct (reachable_keeps env w Hw) as [_ [Hz Hq]].
  split; [reflexivity|]. split; [exact Hz|]. split; [exact Hq|]. split.
  - intros lm others. unfold onResults, handFrame, landmark, bind, lift, modify.
    cbn [multiHandLandmarks].
    destruct (nth_error lm 0); [|reflexivity].
    destruct (nth_error lm 8); [|reflexivity].
    destruct (nth_error lm 6); [|reflexivity].
    destruct (nth_error lm 12); [|reflexivity].
    destruct (nth_error lm 10); [|reflexivity].
    destruct (nth_error lm 20); [|reflexivity].
    destruct (nth_error lm 18); [|reflexivity].
    destruct (nth_error lm 4); [|reflexivity].
    destruct (nth_error lm 2); reflexivity.
  - intros e.
    destruct (reachable_keeps env (step env w e)) as [_ [Hz' Hq']];
      [apply reachable_step; exact Hw|].
    split; assumption.
Qed.

Lemma displacement_stays_planar_witness :
  reachable dotEnv (loaded dotEnv 1) /\
  Vector3.z (handDisplacement (loaded dotEnv 1)) = 0 /\
  Vector3.z (position (loaded dotEnv 1)) = 0.
Proof.
  assert (H : reachable dotEnv (loaded dotEnv 1))
    by (apply loaded_reachable, dot_drawn).
  split; [exact H|].
  destruct (displacement_stays_planar dotEnv (loaded dotEnv 1) H)
    as [_ [T1 [T2 _]]].
  split; [exact T1|exact T2].
Defined.

(* ===================================================================== *)
(** * Properties: the planet shape *)
(* ===================================================================== *)

Lemma sin_cos_square (a : R) : sin a * sin a + cos a * cos a = 1.
Proof. pose proof (sin2_cos2 a) as H. unfold Rsqr in H. exact H. Qed.

Lemma spherical_length (radius phi theta : R) :
  0 <= radius ->
  Vector3.length (Vector3.setFromSphericalCoords radius phi theta) = radius.
Proof.
  intros Hr. unfold Vector3.length, Vector3.lengthSq, Vector3.setFromSphericalCoords.
  cbn.
  replace (sin phi * radius * sin theta * (sin phi * radius * sin theta)
           + cos phi * radius * (cos phi * radius)
           + sin phi * radius * cos theta * (sin phi * radius * cos theta))
    with (radius * radius
          * (sin phi * sin phi * (sin theta * sin theta + cos theta * cos theta)
             + cos phi * cos phi)) by ring.
  rewrite sin_cos_square, Rmult_1_r.
  rewrite sin_cos_square, Rmult_1_r.
  apply sqrt_square. exact Hr.
Qed.

Lemma scaleFactor_pos (env : Env) : 0 < scaleFactor env.
Proof. unfold scaleFactor. destruct (isMobile env); lra. Qed.

Lemma ring_facts (env : Env) (d : nat) :
  randomInRange env ->
  0 <= ringAngle env d < 2 * PI /\
  20 * scaleFactor env <= ringRadius env d <= 26 * scaleFactor env /\
  horizontalRadius (ringPoint env d) = ringRadius env d /\
  -0.3 <= Vector3.y (ringPoint env d) <= 0.3.
Proof.
  intros Hr.
  pose proof (Hr d) as H0. pose proof (Hr (S d)) as H1. pose proof (Hr (S (S d))) as H2.
  pose proof (scaleFactor_pos env) as Hs. pose proof PI_RGT_0 as Hpi.
  assert (Hrad : 20 * scaleFactor env <= ringRadius env d <= 26 * scaleFactor env)
    by (unfold ringRadius; nra).
  split; [unfold ringAngle; nra|]. split; [exact Hrad|]. split.
  - unfold horizontalRadius, ringPoint. cbn.
    replace (cos (ringAngle env d) * ringRadius env d
               * (cos (ringAngle env d) * ringRadius env d)
             + sin (ringAngle env d) * ringRadius env d
               * (sin (ringAngle env d) * ringRadius env d))
      with (ringRadius env d * ringRadius env d
            * (sin (ringAngle env d) * sin (ringAngle env d)
               + cos (ringAngle env d) * cos (ringAngle env d))) by ring.
    rewrite sin_cos_square, Rmult_1_r. apply sqrt_square. nra.
  - unfold ringPoint, ringHeight. cbn. lra.
Qed.

Lemma core_angles (env : Env) (i : nat) :
  corePhi env i = acos (-1 + 2 * INR i / INR (coreCount env)) /\
  coreTheta env i = sqrt (INR (coreCount env) * PI) * corePhi env i.
Proof.
  destruct (core_ring_split env) as [_ [Hc _]].
  unfold coreTheta, corePhi. rewrite Hc.
  replace (0.4 * INR (PARTICLE_COUNT env)) with (INR (PARTICLE_COUNT env) * 0.4) by lra.
  split; reflexivity.
Qed.

Lemma coreCount_pos (env : Env) : (0 < coreCount env)%nat.
Proof. rewrite coreCount_value. destruct (isMobile env); lia. Qed.

(** Core point 0 is the south pole of the sphere. *)
Lemma core_point_zero (env : Env) :
  corePhi env 0 = PI /\
  corePoint env 0 = Vector3.mk 0 (- (15 * scaleFactor env)) 0.
Proof.
  assert (H : corePhi env 0 = PI).
  { unfold corePhi. cbn [INR].
    replace (-1 + 2 * 0 / (INR (PARTICLE_COUNT env) * 0.4)) with (- (1)).
    - rewrite acos_opp, acos_1. lra.
    - unfold Rdiv. lra. }
  split; [exact H|].
  unfold corePoint, Vector3.setFromSphericalCoords. rewrite H.
  rewrite sin_PI, cos_PI. f_equal; lra.
Qed.

(** C6 (as the code has it).  In every reachable world the planet set has
    [PARTICLE_COUNT] points: the first 0.4 N are the core, point i at
    radius 15 s, polar angle acos(-1 + 2i/coreCount) and azimuth
    sqrt(coreCount pi) times that angle; the remaining 0.6 N are the ring,
    each at an azimuth in [0, 2 pi), at horizontal radius in [20 s, 26 s]
    and at a height in [-0.3, 0.3], which is not scaled by s. *)
Theorem planet_point_set :
  forall (env : Env) (w : World),
    randomInRange env -> reachable env w ->
    let l := saturnPoints (shapes w) in
    let s := scaleFactor env in
    length l = PARTICLE_COUNT env /\
    (coreCount env + ringCount env = PARTICLE_COUNT env)%nat /\
    INR (coreCount env) = 0.4 * INR (PARTICLE_COUNT env) /\
    INR (ringCount env) = 0.6 * INR (PARTICLE_COUNT env) /\
    (forall i, (i < coreCount env)%nat ->
       let phi := acos (-1 + 2 * INR i / INR (coreCount env)) in
       let theta := sqrt (INR (coreCount env) * PI) * phi in
       nth_error l i = Some (Vector3.setFromSphericalCoords (15 * s) phi theta) /\
       Vector3.length (Vector3.setFromSphericalCoords (15 * s) phi theta) = 15 * s) /\
    (forall i, (coreCount env <= i < PARTICLE_COUNT env)%nat ->
       exists p angle radius,
         nth_error l i = Some p /\
         p = Vector3.mk (cos angle * radius) (Vector3.y p) (sin angle * radius) /\
         0 <= angle < 2 * PI /\
         20 * s <= radius <= 26 * s /\
         horizontalRadius p = radius /\
         -0.3 <= Vector3.y p <= 0.3).
Proof.
  intros env w Hrand Hw l s.
  destruct (reachable_keeps env w Hw) as [[[_ [_ [_ [_ [Hlen [Hcore Hring]]]]]] _] _].
  destruct (core_ring_split env) as [Hsum [Hc Hr]].
  pose proof (scaleFactor_pos env) as Hs.
  split; [exact Hlen|]. split; [exact Hsum|]. split; [exact Hc|]. split; [exact Hr|].
  split.
  - intros i Hi phi theta.
    destruct (core_angles env i) as [Hphi Htheta].
    assert (E : corePoint env i = Vector3.setFromSphericalCoords (15 * s) phi theta).
    { unfold corePoint. rewrite Htheta, Hphi. reflexivity. }
    split; [unfold l; rewrite (Hcore i Hi), E; reflexivity|].
    apply spherical_length. unfold s. lra.
  - intros i Hi. destruct (Hring i Hi) as [d Hd].
    destruct (ring_facts env d Hrand) as [Ha [Hrad [Hh Hy]]].
    exists (ringPoint env d), (ringAngle env d), (ringRadius env d).
    split; [exact Hd|]. split; [reflexivity|]. split; [exact Ha|].
    split; [exact Hrad|]. split; [exact Hh|exact Hy].
Qed.

Lemma constant_zero_in_range (m : bool) (image : string -> list Z) :
  randomInRange (mkEnv m image (fun _ => 0)).
Proof. intros k. cbn. lra. Qed.

Lemma planet_point_set_witness :
  randomInRange dotEnv /\ reachable dotEnv (loaded dotEnv 1) /\
  length (saturnPoints (shapes (loaded dotEnv 1))) = PARTICLE_COUNT dotEnv.
Proof.
  assert (H1 : randomInRange dotEnv) by apply constant_zero_in_range.
  assert (H2 : reachable dotEnv (loaded dotEnv 1))
    by (apply loaded_reachable, dot_drawn).
  split; [exact H1|]. split; [exact H2|].
  exact (proj1 (planet_point_set dotEnv (loaded dotEnv 1) H1 H2)).
Defined.

(** C6 as claimed fails on the mobile tier (s = 0.6): with
    [Math.random()] returning 0 the first ring point lies at height -0.3,
    outside [-0.3 s, 0.3 s] = [-0.18, 0.18]. *)
Lemma ring_height_not_scaled :
  randomInRange mobileEnv /\
  reachable mobileEnv (loaded mobileEnv 1) /\
  (coreCount mobileEnv < PARTICLE_COUNT mobileEnv)%nat /\
  Vector3.y (nth (coreCount mobileEnv)
                 (saturnPoints (shapes (loaded mobileEnv 1))) Vector3.zero) = -0.3 /\
  ~ (-0.3 * scaleFactor mobileEnv
     <= Vector3.y (nth (coreCount mobileEnv)
                       (saturnPoints (shapes (loaded mobileEnv 1))) Vector3.zero)
     <= 0.3 * scaleFactor mobileEnv).
Proof.
  assert (H1 : randomInRange mobileEnv) by apply constant_zero_in_range.
  assert (H2 : reachable mobileEnv (loaded mobileEnv 1))
    by (apply loaded_reachable, dot_drawn).
  assert (H3 : (coreCount mobileEnv < PARTICLE_COUNT mobileEnv)%nat).
  { destruct (core_ring_split mobileEnv) as [Hsum _].
    assert (0 < ringCount mobileEnv)%nat by (unfold ringCount; cbn; lia). lia. }
  destruct (reachable_keeps mobileEnv _ H2) as [[[_ [_ [_ [_ [_ [_ Hring]]]]]] _] _].
  destruct (Hring (coreCount mobileEnv)) as [d Hd]; [lia|].
  rewrite (nth_error_nth _ _ Vector3.zero Hd).
  assert (Hy : Vector3.y (ringPoint mobileEnv d) = -0.3)
    by (unfold ringPoint, ringHeight; cbn; lra).
  split; [exact H1|]. split; [exact H2|]. split; [exact H3|]. split; [exact Hy|].
  rewrite Hy. unfold scaleFactor. cbn. lra.
Qed.

Lemma resize_camera (env : Env) (w : World) (newAspect : R) :
  camera (step env w (Resize newAspect))
  = mkCamera (fov (camera w)) newAspect (camera_position_z (camera w)).
Proof.
  unfold step. cbn [handle]. rewrite onResize_unfold.
  match goal with |- context [initShapes env ?w1] => set (W1 := w1) end.
  destruct (initShapes_run env W1) as [s [d [Hw _]]].
  rewrite Hw. reflexivity.
Qed.

Lemma loaded_camera (env : Env) (aspect0 : R) :
  textsDrawn env (preWorld aspect0) ->
  camera (loaded env aspect0) = mkCamera 75 aspect0 35.
Proof.
  intros H. apply (main_run env aspect0) in H.
  unfold loaded in *.
  destruct (initShapes_run env (preWorld aspect0)) as [s [d [Hw [_ [Hready _]]]]].
  destruct (initShapes env (preWorld aspect0)) as [[[]|e] w1] eqn:E;
    cbn [fst snd] in Hw, Hready.
  - rewrite (main_normal _ _ _ E).
    set (W2 := set_posArray (repeat 0 (PARTICLE_COUNT env * 3)) w1).
    assert (R2 : shapesReady env (shapes W2)) by (subst W2 w1; exact (Hready eq_refl)).
    rewrite (animate_run env W2) by (apply ready_targets; exact R2).
    cbn [snd]. destruct (animated_frame env W2) as [F _]. rewrite F.
    subst W2 w1. reflexivity.
  - rewrite (main_throw _ _ _ _ E) in H. discriminate H.
Qed.

(** The tangent of half the field of view lies strictly between 0 and 1. *)
Lemma half_fov_tangent : 0 < tan (MathUtils.degToRad 75 / 2) < 1.
Proof.
  unfold MathUtils.degToRad. pose proof PI_RGT_0 as Hpi.
  split.
  - apply tan_gt_0; lra.
  - rewrite <- tan_PI4. apply tan_increasing; lra.
Qed.

(** C7 (as the code has it).  In every reachable world, so before and
    after every resize, core point 0 of the planet is the same point: it
    lies at radius 15 s, where s is the device-tier factor that no resize
    changes, at polar angle pi and azimuth sqrt(coreCount pi) pi, that is at
    (0, -15 s, 0).  The responsive scale does not enter the planet. *)
Theorem planet_core_point_fixed :
  forall (env : Env) (w : World) (newAspect : R),
    reachable env w ->
    let p := Vector3.setFromSphericalCoords
               (15 * scaleFactor env) PI (sqrt (INR (coreCount env) * PI) * PI) in
    nth_error (saturnPoints (shapes w)) 0 = Some p /\
    nth_error (saturnPoints (shapes (step env w (Resize newAspect)))) 0 = Some p /\
    corePhi env 0 = PI /\
    coreTheta env 0 = sqrt (INR (coreCount env) * PI) * PI /\
    p = Vector3.mk 0 (- (15 * scaleFactor env)) 0 /\
    Vector3.length p = 15 * scaleFactor env.
Proof.
  intros env w newAspect Hw p.
  destruct (core_point_zero env) as [Hphi Hpoint].
  destruct (core_angles env 0) as [_ Htheta]. rewrite Hphi in Htheta.
  assert (E : corePoint env 0 = p)
    by (unfold corePoint, p; rewrite Htheta, Hphi; reflexivity).
  assert (L : forall v, reachable env v -> nth_error (saturnPoints (shapes v)) 0 = Some p).
  { intros v Hv.
    destruct (reachable_keeps env v Hv) as [[[_ [_ [_ [_ [_ [Hcore _]]]]]] _] _].
    rewrite <- E. apply Hcore. apply coreCount_pos. }
  split; [apply L; exact Hw|].
  split; [apply L; apply reachable_step; exact Hw|].
  split; [exact Hphi|]. split; [exact Htheta|].
  split; [rewrite <- E; exact Hpoint|].
  apply spherical_length. pose proof (scaleFactor_pos env). lra.
Qed.

Lemma planet_core_point_fixed_witness :
  reachable dotEnv (loaded dotEnv 1) /\
  nth_error (saturnPoints (shapes (step dotEnv (loaded dotEnv 1) (Resize 2)))) 0
  = nth_error (saturnPoints (shapes (loaded dotEnv 1))) 0.
Proof.
  assert (H : reachable dotEnv (loaded dotEnv 1))
    by (apply loaded_reachable, dot_drawn).
  split; [exact H|].
  destruct (planet_core_point_fixed dotEnv (loaded dotEnv 1) 2 H) as [T1 [T2 _]].
  rewrite T1, T2. reflexivity.
Defined.

(** C7 as claimed fails: resizing the loaded desktop script from aspect
    ratio 1 to 2 changes the responsive scale, yet core point 0 of the
    regenerated planet is where it was, at (0, -15, 0): its radius is 15 and
    not 15 times the new scale, and its polar angle is pi, so it is not the
    point at angles (0, 0). *)
Lemma planet_ignores_responsive_scale :
  responsiveScale (camera resizedWorld) <> responsiveScale (camera (loaded dotEnv 1)) /\
  nth 0 (saturnPoints (shapes resizedWorld)) Vector3.zero
    = nth 0 (saturnPoints (shapes (loaded dotEnv 1))) Vector3.zero /\
  nth 0 (saturnPoints (shapes resizedWorld)) Vector3.zero = Vector3.mk 0 (-15) 0 /\
  Vector3.length (nth 0 (saturnPoints (shapes resizedWorld)) Vector3.zero)
    <> 15 * responsiveScale (camera resizedWorld) /\
  nth 0 (saturnPoints (shapes resizedWorld)) Vector3.zero
    <> Vector3.setFromSphericalCoords (15 * responsiveScale (camera resizedWorld)) 0 0.
Proof.
  assert (H : reachable dotEnv (loaded dotEnv 1))
    by (apply loaded_reachable, dot_drawn).
  assert (H' : reachable dotEnv resizedWorld) by (apply reachable_step; exact H).
  assert (P : forall v, reachable dotEnv v ->
            nth 0 (saturnPoints (shapes v)) Vector3.zero = Vector3.mk 0 (-15) 0).
  { intros v Hv.
    destruct (reachable_keeps dotEnv v Hv) as [[[_ [_ [_ [_ [_ [Hcore _]]]]]] _] _].
    rewrite (nth_error_nth _ _ Vector3.zero (Hcore 0%nat (coreCount_pos dotEnv))).
    destruct (core_point_zero dotEnv) as [_ ->].
    unfold scaleFactor. cbn. f_equal. lra. }
  assert (C1 : camera (loaded dotEnv 1) = mkCamera 75 1 35)
    by (apply loaded_camera, dot_drawn).
  assert (C2 : camera resizedWorld = mkCamera 75 2 35)
    by (unfold resizedWorld; rewrite resize_camera, C1; reflexivity).
  pose proof half_fov_tangent as [T0 T1].
  assert (S1 : responsiveScale (camera (loaded dotEnv 1))
               = tan (MathUtils.degToRad 75 / 2) * (7 / 64))
    by (rewrite C1; unfold responsiveScale; cbn; lra).
  assert (S2 : responsiveScale (camera resizedWorld)
               = tan (MathUtils.degToRad 75 / 2) * (7 / 32))
    by (rewrite C2; unfold responsiveScale; cbn; lra).
  rewrite (P _ H), (P _ H'), S1, S2.
  split; [lra|]. split; [reflexivity|]. split; [reflexivity|]. split.
  - unfold Vector3.length, Vector3.lengthSq. cbn.
    replace (0 * 0 + -15 * -15 + 0 * 0) with (15 * 15) by lra.
    rewrite sqrt_square by lra. nra.
  - unfold Vector3.setFromSphericalCoords. rewrite sin_0, cos_0.
    intros E. injection E as _ E _. nra.
Qed.

(* ===================================================================== *)
(** * Properties: morph convergence *)
(* ===================================================================== *)

Lemma animate_ready (env : Env) (w : World) :
  ready env w ->
  animate env w = (Js.Normal tt, animated env w) /\ ready env (animated env w).
Proof.
  intros [Hs Hp].
  split; [apply animate_run, ready_targets; exact Hs|].
  destruct (animated_frame env w) as [_ [_ [F1 [_ [_ [_ [_ F4]]]]]]].
  unfold ready. rewrite F1, F4. split; assumption.
Qed.

Lemma frames_S (env : Env) (w : World) (k : nat) :
  frames env w (S k) = step env (frames env w k) AnimationFrame.
Proof.
  unfold frames, run. cbn [repeat]. rewrite repeat_cons, fold_left_app.
  reflexivity.
Qed.

(** Rendering frames keeps the script ready and changes neither the point
    sets nor the gesture, hence not the selected target. *)
Lemma frames_ready (env : Env) (w : World) (k : nat) :
  ready env w ->
  ready env (frames env w k) /\
  selectTarget (frames env w k) = selectTarget w /\
  (ready env (frames env w k) ->
   frames env w (S k) = animated env (frames env w k)).
Proof.
  intros H. induction k as [|k [IHr [IHs IHa]]].
  - split; [exact H|]. split; [reflexivity|].
    intros _. rewrite frames_S. unfold step. cbn [handle frames run repeat fold_left].
    destruct (animate_ready env w H) as [-> _]. reflexivity.
  - assert (E : frames env w (S k) = animated env (frames env w k)) by (apply IHa, IHr).
    destruct (animate_ready env _ IHr) as [Ha Hr].
    assert (R : ready env (frames env w (S k))) by (rewrite E; exact Hr).
    split; [exact R|]. split.
    + rewrite E, <- IHs.
      destruct (animated_frame env (frames env w k)) as [_ [_ [F1 [F2 _]]]].
      unfold selectTarget. rewrite F1, F2. reflexivity.
    + intros _. rewrite (frames_S env w (S k)). unfold step. cbn [handle].
      destruct (animate_ready env _ R) as [-> _]. reflexivity.
Qed.

Lemma axis_particle (arr : list R) (i a : nat) :
  (a < 3)%nat -> axis a (particle arr i) = nth (i * 3 + a) arr 0.
Proof.
  intros H. destruct a as [|[|[|a]]]; [| | |lia]; cbn [axis particle Vector3.x
    Vector3.y Vector3.z]; [rewrite Nat.add_0_r|..]; reflexivity.
Qed.




Lemma smoothing_power_bounds (k : nat) : 0 < (1 - SMOOTHING) ^ k <= 1.
Proof.
  unfold SMOOTHING. induction k as [|k IH]; cbn [pow]; lra.
Qed.

Lemma sum_squares_nonneg (a b c : R) : 0 <= a * a + b * b + c * c.
Proof. nra. Qed.

Lemma distanceTo_scaled (v v0 t : Vector3.t) (q : R) :
  0 <= q ->
  (forall a, (a < 3)%nat -> axis a t - axis a v = q * (axis a t - axis a v0)) ->
  Vector3.distanceTo v t = q * Vector3.distanceTo v0 t.
Proof.
  intros Hq H.
  pose proof (H 0%nat ltac:(lia)) as Hx.
  pose proof (H 1%nat ltac:(lia)) as Hy.
  pose proof (H 2%nat ltac:(lia)) as Hz.
  cbn [axis] in Hx, Hy, Hz.
  unfold Vector3.distanceTo.
  replace (Vector3.x v - Vector3.x t) with (q * (Vector3.x v0 - Vector3.x t)) by lra.
  replace (Vector3.y v - Vector3.y t) with (q * (Vector3.y v0 - Vector3.y t)) by lra.
  replace (Vector3.z v - Vector3.z t) with (q * (Vector3.z v0 - Vector3.z t)) by lra.
  match goal with
  | |- sqrt ?lhs = q * sqrt ?s => replace lhs with ((q * q) * s) by ring
  end.
  rewrite sqrt_mult; [|nra|apply sum_squares_nonneg].
  rewrite sqrt_square by exact Hq. reflexivity.
Qed.

Lemma square_nonneg (a b : R) : 0 <= (a - b) * (a - b).
Proof. apply Rle_0_sqr. Qed.

Lemma square_pos (a b : R) : a <> b -> 0 < (a - b) * (a - b).
Proof. intros H. apply Rsqr_pos_lt. lra. Qed.

Lemma distanceTo_pos (v t : Vector3.t) : v <> t -> 0 < Vector3.distanceTo v t.
Proof.
  intros Hne. unfold Vector3.distanceTo. apply sqrt_lt_R0.
  destruct v as [vx vy vz], t as [tx ty tz]. cbn.
  pose proof (square_nonneg vx tx) as Hx.
  pose proof (square_nonneg vy ty) as Hy.
  pose proof (square_nonneg vz tz) as Hz.
  destruct (Req_dec vx tx) as [Ex|Ex]; [|pose proof (square_pos _ _ Ex); lra].
  destruct (Req_dec vy ty) as [Ey|Ey]; [|pose proof (square_pos _ _ Ey); lra].
  destruct (Req_dec vz tz) as [Ez|Ez]; [|pose proof (square_pos _ _ Ez); lra].
  exfalso. apply Hne. congruence.
Qed.


Lemma ready_set_currentGesture (env : Env) (g : Gesture) (w : World) :
  ready env w -> ready env (set_currentGesture g w).
Proof. intros H. exact H. Qed.


Lemma fistWorld_ready : ready dotEnv fistWorld.
Proof.
  apply ready_set_currentGesture.
  apply (reachable_keeps dotEnv (loaded dotEnv 1)).
  apply loaded_reachable, dot_drawn.
Qed.


(* ===================================================================== *)
(** * Further properties: rasterised text *)
(* ===================================================================== *)

Lemma stride2_In (stop x : nat) :
  In x (stride2 stop) <-> exists k, (k < (stop + 1) / 2)%nat /\ x = (2 * k)%nat.
Proof.
  unfold stride2. rewrite in_map_iff. split.
  - intros [k [E H]]. apply in_seq in H. exists k. split; [lia|congruence].
  - intros [k [H E]]. exists k. split; [congruence|]. apply in_seq. lia.
Qed.

Lemma scanImage_In (imageData : list Z) (scale : R) (p : Vector3.t) :
  In p (scanImage imageData scale) <->
  exists kx ky,
    (kx < 256)%nat /\ (ky < 64)%nat /\
    isForeground imageData (2 * kx) (2 * ky) = true /\
    p = Vector3.mk ((INR (2 * kx) - 256) * scale)
                   ((64 - INR (2 * ky)) * scale) 0.
Proof.
  rewrite scanImage_rows, in_flat_map. split.
  - intros [y [Hy Hp]]. apply in_map_iff in Hp. destruct Hp as [x [E Hx]].
    apply filter_In in Hx. destruct Hx as [Hx Hf].
    apply stride2_In in Hx, Hy.
    destruct Hx as [kx [Hkx ->]]. destruct Hy as [ky [Hky ->]].
    change ((512 + 1) / 2)%nat with 256%nat in Hkx.
    change ((128 + 1) / 2)%nat with 64%nat in Hky.
    exists kx, ky. repeat split; try assumption. symmetry. exact E.
  - intros [kx [ky [Hkx [Hky [Hf ->]]]]].
    exists (2 * ky)%nat. split.
    + apply stride2_In. exists ky. split; [|reflexivity].
      change ((128 + 1) / 2)%nat with 64%nat. exact Hky.
    + apply in_map_iff. exists (2 * kx)%nat. split; [reflexivity|].
      apply filter_In. split; [|exact Hf].
      apply stride2_In. exists kx. split; [|reflexivity].
      change ((512 + 1) / 2)%nat with 256%nat. exact Hkx.
Qed.

(** X1.  The samples of [createTextPoints] are exactly the points of the
    foreground pixels with even coordinates (red channel above 128), and
    there is at most one per pixel of the 256 x 64 sampling grid. *)
Theorem samples_are_even_foreground_pixels :
  forall (imageData : list Z) (scale : R) (p : Vector3.t),
    (In p (scanImage imageData scale) <->
     exists kx ky,
       (kx < 256)%nat /\ (ky < 64)%nat /\
       isForeground imageData (2 * kx) (2 * ky) = true /\
       p = Vector3.mk ((INR (2 * kx) - 256) * scale)
                      ((64 - INR (2 * ky)) * scale) 0) /\
    (length (scanImage imageData scale) <= 64 * 256)%nat.
Proof.
  intros imageData scale p.
  split; [apply scanImage_In|apply scanImage_bound].
Qed.

Lemma responsiveScale_width (c : Camera) :
  512 * responsiveScale c = 0.8 * visibleWidth c.
Proof. unfold responsiveScale, visibleWidth. field. Qed.

Lemma even_index_bounds (k n : nat) :
  (k < n)%nat -> 0 <= INR (2 * k) <= 2 * INR n - 2.
Proof.
  intros H. rewrite mult_INR. cbn [INR].
  apply lt_INR in H. pose proof (pos_INR k) as Hk.
  assert (INR k + 1 <= INR n).
  { rewrite <- S_INR. apply le_INR. apply INR_lt in H. lia. }
  lra.
Qed.

Lemma sample_in_box (imageData : list Z) (scale : R) (p : Vector3.t) :
  0 <= scale -> In p (scanImage imageData scale) ->
  - 256 * scale <= Vector3.x p <= 254 * scale /\
  - 62 * scale <= Vector3.y p <= 64 * scale /\
  Vector3.z p = 0.
Proof.
  intros Hs Hp.
  apply (proj1 (scanImage_In imageData scale p)) in Hp.
  destruct Hp as [kx [ky [Hkx [Hky [_ ->]]]]]. cbn [Vector3.x Vector3.y Vector3.z].
  pose proof (even_index_bounds kx 256 Hkx) as Bx.
  pose proof (even_index_bounds ky 64 Hky) as By.
  replace (INR 256) with 256 in Bx by (rewrite INR_IZR_INZ; reflexivity).
  replace (INR 64) with 64 in By by (rewrite INR_IZR_INZ; reflexivity).
  split; [nra|]. split; [nra|reflexivity].
Qed.

Lemma Array_from_lift_exact {A : Type} (g : nat -> Js.Completion A) (v : nat -> A)
    (n : nat) :
  forall (start : nat) (w : World),
    (forall j, (j < n)%nat -> g (start + j)%nat = Js.Normal (v (start + j)%nat)) ->
    Array_from_at start n (fun i => lift (g i)) w = (Js.Normal (map v (seq start n)), w).
Proof.
  induction n as [|n IH]; intros start w Hg; [reflexivity|].
  cbn [Array_from_at seq map].
  assert (E0 : lift (g start) w = (Js.Normal (v start), w)).
  { unfold lift. pose proof (Hg 0%nat ltac:(lia)) as H0.
    rewrite Nat.add_0_r in H0. rewrite H0. reflexivity. }
  rewrite (bind_normal _ _ _ _ _ E0).
  rewrite (bind_normal _ _ _ _ _ (IH (S start) w ltac:(
    intros j Hj; replace (S start + j)%nat with (start + S j)%nat by lia;
    apply Hg; lia))).
  reflexivity.
Qed.

Lemma cyclePoint_value (points : list Vector3.t) (i : nat) :
  (1 <= length points)%nat ->
  cyclePoint points i = Js.Normal (nth (i mod length points) points Vector3.zero).
Proof.
  intros H. destruct (cyclePoint_nonempty points i H) as [p [-> Hp]].
  rewrite (nth_error_nth _ _ Vector3.zero Hp). reflexivity.
Qed.

(** With at least one sample [createTextPoints] returns the samples
    cycled into [count] points. *)
Lemma createTextPoints_exact (env : Env) (text : string) (count : nat) (w : World) :
  (1 <= length (samples env text w))%nat ->
  createTextPoints env text count w
  = (Js.Normal (cycled (samples env text w) count), w).
Proof.
  intros H. rewrite createTextPoints_unfold. unfold cycled.
  apply (Array_from_lift_exact (cyclePoint (samples env text w))
           (fun i => nth (i mod length (samples env text w)) (samples env text w)
                         Vector3.zero)).
  intros j _. apply cyclePoint_value. exact H.
Qed.

Lemma cycled_length (points : list Vector3.t) (n : nat) : length (cycled points n) = n.
Proof. unfold cycled. rewrite length_map, length_seq. reflexivity. Qed.

Lemma cycled_nth_error (points : list Vector3.t) (n i : nat) :
  (1 <= length points)%nat -> (i < n)%nat ->
  nth_error (cycled points n) i = nth_error points (i mod length points).
Proof.
  intros HM Hi. unfold cycled.
  rewrite nth_error_map, nth_error_seq.
  destruct (Nat.ltb_spec i n) as [_|]; [|lia]. cbn [option_map Nat.add].
  symmetry. apply nth_error_nth'. apply Nat.mod_upper_bound. lia.
Qed.

Lemma cycled_firstn (points : list Vector3.t) (n : nat) :
  (n <= length points)%nat -> cycled points n = firstn n points.
Proof.
  intros H. apply nth_error_ext. intros i.
  rewrite nth_error_firstn.
  destruct (Nat.ltb_spec i n) as [Hi|Hi].
  - rewrite cycled_nth_error by lia. rewrite Nat.mod_small by lia. reflexivity.
  - apply nth_error_None. rewrite cycled_length. exact Hi.
Qed.

Lemma cycled_In (points : list Vector3.t) (n : nat) (p : Vector3.t) :
  (1 <= length points)%nat ->
  (In p (cycled points n) -> In p points) /\
  ((length points <= n)%nat -> In p points -> In p (cycled points n)).
Proof.
  intros HM. split.
  - intros H. apply In_nth_error in H. destruct H as [i Hi].
    assert (i < n)%nat.
    { rewrite <- (cycled_length points n). apply nth_error_Some. congruence. }
    rewrite cycled_nth_error in Hi by assumption.
    apply nth_error_In in Hi. exact Hi.
  - intros Hn H. apply In_nth_error in H. destruct H as [i Hi].
    assert (i < length points)%nat by (apply nth_error_Some; congruence).
    apply nth_error_In with (n := i).
    rewrite cycled_nth_error by lia. rewrite Nat.mod_small by lia. exact Hi.
Qed.

(** X2.  When the text has at least as many samples as points are asked
    for, the generated set is the first [N] samples in scan order (top
    rows first): the remaining samples are dropped. *)
Theorem text_points_truncate :
  forall (env : Env) (text : string) (N : nat) (w : World),
    (N <= length (samples env text w))%nat ->
    createTextPoints env text N w = (Js.Normal (firstn N (samples env text w)), w).
Proof.
  intros env text N w H.
  destruct (Nat.eq_dec N 0) as [->|HN]; [reflexivity|].
  rewrite createTextPoints_exact by lia.
  rewrite cycled_firstn by exact H. reflexivity.
Qed.

Lemma text_points_truncate_witness :
  createTextPoints dotEnv "WILL YOU" 1 (preWorld 1)
  = (Js.Normal (firstn 1 (samples dotEnv "WILL YOU" (preWorld 1))), preWorld 1).
Proof.
  apply (text_points_truncate dotEnv "WILL YOU" 1 (preWorld 1)).
  exact (proj1 (samples_dot "WILL YOU" (preWorld 1))).
Defined.

(** X3.  With at least one sample the generated set has [N] points, every
    one of them a sample; and when there are no more samples than points,
    every sample occurs in the set, so nothing of the text is lost. *)
Theorem text_points_cover :
  forall (env : Env) (text : string) (N : nat) (w : World),
    (1 <= length (samples env text w))%nat ->
    exists l,
      createTextPoints env text N w = (Js.Normal l, w) /\
      length l = N /\
      (forall p, In p l -> In p (samples env text w)) /\
      ((length (samples env text w) <= N)%nat ->
       forall p, In p (samples env text w) -> In p l).
Proof.
  intros env text N w H.
  exists (cycled (samples env text w) N).
  split; [apply createTextPoints_exact; exact H|].
  split; [apply cycled_length|]. split.
  - intros p. exact (proj1 (cycled_In (samples env text w) N p H)).
  - intros HN p. exact (proj2 (cycled_In (samples env text w) N p H) HN).
Qed.

Lemma text_points_cover_witness :
  exists l,
    createTextPoints dotEnv "WILL YOU" (20 * 1000) (preWorld 1)
      = (Js.Normal l, preWorld 1) /\
    length l = (20 * 1000)%nat.
Proof.
  destruct (text_points_cover dotEnv "WILL YOU" (20 * 1000) (preWorld 1))
    as [l [H1 [H2 _]]]; [exact (proj1 (samples_dot "WILL YOU" (preWorld 1)))|].
  exists l. split; assumption.
Defined.

Lemma samples_unfold (env : Env) (text : string) (w : World) :
  samples env text w = scanImage (fillText env text) (responsiveScale (camera w)).
Proof. unfold samples. reflexivity. Qed.

Lemma text_step_zero (env : Env) (text : string) (w : World) :
  createTextPoints env text 0 w = (Js.Normal [], w).
Proof. rewrite createTextPoints_unfold. reflexivity. Qed.

(** X4.  Every point of a generated text set lies in the plane z = 0,
    within 40% of the visible width on either side of the centre and
    within 10% of it above and below: the text spans at most 80% of the
    view. *)
Theorem text_points_fit_view :
  forall (env : Env) (text : string) (N : nat) (w w' : World) (l : list Vector3.t),
    0 <= visibleWidth (camera w) ->
    createTextPoints env text N w = (Js.Normal l, w') ->
    Forall (fun p =>
              - 0.4 * visibleWidth (camera w) <= Vector3.x p
                <= 0.4 * visibleWidth (camera w) /\
              - 0.1 * visibleWidth (camera w) <= Vector3.y p
                <= 0.1 * visibleWidth (camera w) /\
              Vector3.z p = 0) l.
Proof.
  intros env text N w w' l HW E. apply Forall_forall. intros p Hp.
  pose proof (responsiveScale_width (camera w)) as Hs.
  destruct (Nat.eq_dec (length (samples env text w)) 0) as [E0|E0].
  - apply length_zero_iff_nil in E0.
    destruct (Nat.eq_dec N 0) as [HN|HN].
    + subst N. rewrite (text_step_zero env text w) in E.
      injection E as <- _. destruct Hp.
    + rewrite (createTextPoints_empty_throws env text N w E0 HN) in E. discriminate E.
  - assert (HM : (1 <= length (samples env text w))%nat) by lia.
    rewrite (createTextPoints_exact env text N w HM) in E. injection E as <- _.
    apply (proj1 (cycled_In _ _ _ HM)) in Hp. rewrite samples_unfold in Hp.
    apply (sample_in_box (fillText env text) (responsiveScale (camera w)) p) in Hp;
      [|lra].
    destruct Hp as [Hx [Hy Hz]]. split; [lra|]. split; [lra|exact Hz].
Qed.

Lemma text_points_fit_view_witness :
  0 <= visibleWidth (camera (preWorld 1)) /\
  Forall (fun p => Vector3.z p = 0)
         (cycled (samples dotEnv "WILL YOU" (preWorld 1)) 1).
Proof.
  assert (H : 0 <= visibleWidth (camera (preWorld 1))).
  { unfold visibleWidth. cbn [camera preWorld fov aspect camera_position_z].
    pose proof half_fov_tangent. lra. }
  split; [exact H|].
  pose proof (text_points_fit_view dotEnv "WILL YOU" 1 (preWorld 1) (preWorld 1)
           (cycled (samples dotEnv "WILL YOU" (preWorld 1)) 1) H
           (createTextPoints_exact dotEnv "WILL YOU" 1 (preWorld 1)
              (proj1 (samples_dot "WILL YOU" (preWorld 1))))) as T.
  apply Forall_forall. intros p Hp.
  exact (proj2 (proj2 (proj1 (Forall_forall _ _) T p Hp))).
Defined.

(* ===================================================================== *)
(** * Further properties: one generation of the shapes *)
(* ===================================================================== *)

Lemma pair_normal_eq {A : Type} (a a' : A) (l l' : list A) (w w' : World) :
  a = a' -> l = l' -> w = w' ->
  (Js.Normal (a :: l), w) = (Js.Normal (a' :: l'), w').
Proof. intros -> -> ->. reflexivity. Qed.

Lemma set_draws_twice (d d' : nat) (w : World) :
  set_draws d (set_draws d' w) = set_draws d w.
Proof. reflexivity. Qed.

Lemma randomPoints_exact (env : Env) (n : nat) :
  forall (start : nat) (w : World),
    Array_from_at start n (fun _ => randomPoint env) w
    = (Js.Normal (map (fun j => cloudPoint env (draws w + 3 * (j - start)))
                      (seq start n)),
       set_draws (draws w + 3 * n) w).
Proof.
  induction n as [|n IH]; intros start w.
  - cbn [Array_from_at seq map]. unfold ret.
    replace (draws w + 3 * 0)%nat with (draws w) by lia.
    rewrite world_eta. reflexivity.
  - cbn [Array_from_at seq map].
    rewrite (bind_normal _ _ _ _ _ (randomPoint_run env w)).
    rewrite (bind_normal _ _ _ _ _ (IH (S start) _)).
    unfold ret. cbn [draws set_draws]. rewrite set_draws_twice.
    apply pair_normal_eq.
    + f_equal. lia.
    + apply map_ext_in. intros j Hj. apply in_seq in Hj. f_equal. lia.
    + f_equal. lia.
Qed.

Lemma core_test_false (env : Env) (i : nat) :
  (coreCount env <= i)%nat -> (i <? coreCount env)%nat = false.
Proof. intros H. apply Nat.ltb_ge. exact H. Qed.

Lemma saturnPoints_exact (env : Env) (n : nat) :
  forall (start : nat) (w : World),
    Array_from_at start n (saturnPoint env) w
    = (Js.Normal
         (map (fun i => if (i <? coreCount env)%nat then corePoint env i
                        else ringPoint env
                               (draws w + 3 * (i - Nat.max start (coreCount env))))
              (seq start n)),
       set_draws (draws w + 3 * (start + n - Nat.max start (coreCount env))) w).
Proof.
  induction n as [|n IH]; intros start w.
  - cbn [Array_from_at seq map]. unfold ret.
    replace (draws w + 3 * (start + 0 - Nat.max start (coreCount env)))%nat
      with (draws w) by lia.
    rewrite world_eta. reflexivity.
  - cbn [Array_from_at seq map].
    destruct (Nat.lt_ge_cases start (coreCount env)) as [Hc|Hc].
    + rewrite (bind_normal _ _ _ _ _ (saturnPoint_core env start w Hc)).
      rewrite (bind_normal _ _ _ _ _ (IH (S start) w)).
      unfold ret.
      destruct (Nat.ltb_spec start (coreCount env)) as [_|]; [|lia].
      apply pair_normal_eq.
      * reflexivity.
      * apply map_ext_in. intros i Hi. apply in_seq in Hi.
        destruct (i <? coreCount env)%nat; [reflexivity|]. f_equal. lia.
      * f_equal. lia.
    + rewrite (bind_normal _ _ _ _ _ (saturnPoint_ring env start w Hc)).
      rewrite (bind_normal _ _ _ _ _ (IH (S start) _)).
      unfold ret. cbn [draws set_draws]. rewrite set_draws_twice.
      rewrite (core_test_false env start Hc).
      apply pair_normal_eq.
      * f_equal. lia.
      * apply map_ext_in. intros i Hi. apply in_seq in Hi.
        destruct (i <? coreCount env)%nat; [reflexivity|]. f_equal. lia.
      * f_equal. lia.
Qed.

Lemma generatedText_samples (env : Env) (text : string) (w : World) :
  cycled (samples env text w) (PARTICLE_COUNT env) = generatedText env text (camera w).
Proof. unfold generatedText. rewrite samples_unfold. reflexivity. Qed.

Lemma text_step_exact {B : Type} (env : Env) (text : string)
    (set : list Vector3.t -> Shapes -> Shapes) (k : M B) (w : World) :
  (1 <= length (samples env text w))%nat ->
  bind (createTextPoints env text (PARTICLE_COUNT env))
       (fun l => bind (assign (set l)) (fun _ => k)) w
  = k (set_shapes (set (generatedText env text (camera w)) (shapes w)) w).
Proof.
  intros H. rewrite text_step.
  rewrite (createTextPoints_exact env text _ w H). cbn [fst].
  rewrite generatedText_samples. reflexivity.
Qed.

Lemma generatedCloud_map (env : Env) (d : nat) :
  map (fun j => cloudPoint env (d + 3 * (j - 0))) (seq 0 (PARTICLE_COUNT env))
  = generatedCloud env d.
Proof.
  unfold generatedCloud. apply map_ext. intros j. rewrite Nat.sub_0_r. reflexivity.
Qed.

Lemma generatedPlanet_map (env : Env) (d : nat) :
  map (fun i => if (i <? coreCount env)%nat then corePoint env i
                else ringPoint env (d + 3 * (i - Nat.max 0 (coreCount env))))
      (seq 0 (PARTICLE_COUNT env))
  = generatedPlanet env d.
Proof. unfold generatedPlanet. reflexivity. Qed.

(** One run of [initShapes] when every text has a foreground sample: it
    returns, assigns the five generated sets and advances the count of
    random draws; nothing else changes. *)
Lemma initShapes_exact (env : Env) (w : World) :
  textsDrawn env w ->
  initShapes env w
  = (Js.Normal tt,
     set_shapes (generatedShapes env (camera w) (draws w))
                (set_draws (draws w + drawsPerGeneration env) w)).
Proof.
  intros [D1 [D2 D3]].
  unfold initShapes.
  rewrite (bind_normal _ _ _ _ _ (getResponsiveScale_run w)).
  rewrite text_step_exact by exact D1.
  rewrite text_step_exact
    by (rewrite (samples_camera env "BE MY" w) by reflexivity; exact D2).
  rewrite text_step_exact
    by (rewrite (samples_camera env "VALENTINE?" w) by reflexivity; exact D3).
  unfold Array_from.
  rewrite (bind_normal _ _ _ _ _ (randomPoints_exact env _ 0 _)).
  rewrite (bind_normal _ _ _ _ _ (assign_run _ _)).
  rewrite (bind_normal _ _ _ _ _ (saturnPoints_exact env _ 0 _)).
  rewrite assign_run.
  cbn [draws camera shapes set_shapes set_draws willYouPoints beMyPoints
       valentinesPoints saturnPoints randomPoints set_willYouPoints
       set_beMyPoints set_valentinesPoints set_randomPoints set_saturnPoints].
  rewrite generatedCloud_map, generatedPlanet_map.
  destruct (core_ring_split env) as [Hsum _].
  replace (draws w + 3 * PARTICLE_COUNT env
           + 3 * (0 + PARTICLE_COUNT env - Nat.max 0 (coreCount env)))%nat
    with (draws w + drawsPerGeneration env)%nat
    by (unfold drawsPerGeneration; lia).
  reflexivity.
Qed.

Lemma grid_length_independent {A B C D : Type} (c : A -> B -> bool)
    (f : A -> B -> C) (g : A -> B -> D) (ys : list A) (xs : list B) :
  length (flat_map (fun y => map (f y) (filter (c y) xs)) ys)
  = length (flat_map (fun y => map (g y) (filter (c y) xs)) ys).
Proof.
  induction ys as [|y ys IH]; cbn [flat_map]; [reflexivity|].
  rewrite !length_app, !length_map, IH. reflexivity.
Qed.

(** The number of samples does not depend on the scale. *)
Lemma scanImage_length_scale (imageData : list Z) (s s' : R) :
  length (scanImage imageData s) = length (scanImage imageData s').
Proof.
  rewrite !scanImage_rows.
  apply (grid_length_independent (fun y x => isForeground imageData x y)).
Qed.

Lemma samples_length_any (env : Env) (text : string) (w w' : World) :
  length (samples env text w) = length (samples env text w').
Proof. rewrite !samples_unfold. exact (scanImage_length_scale _ _ _). Qed.

Lemma drawn_any (env : Env) (text : string) (w w' : World) :
  (1 <= length (samples env text w))%nat -> (1 <= length (samples env text w'))%nat.
Proof. intros H. rewrite <- (samples_length_any env text w w'). exact H. Qed.

Lemma textsDrawn_any (env : Env) (w w' : World) :
  textsDrawn env w -> textsDrawn env w'.
Proof.
  intros [D1 [D2 D3]].
  split; [exact (drawn_any env _ w w' D1)|].
  split; [exact (drawn_any env _ w w' D2)|exact (drawn_any env _ w w' D3)].
Qed.

Lemma synced_frame (env : Env) (w w' : World) :
  camera w' = camera w -> draws w' = draws w -> shapes w' = shapes w ->
  synced env w -> synced env w'.
Proof.
  intros Hc Hd Hs [D [d [E1 E2]]].
  split; [exact (textsDrawn_any env w w' D)|].
  exists d. rewrite Hc, Hd, Hs. split; assumption.
Qed.

Lemma synced_after_initShapes (env : Env) (w : World) :
  textsDrawn env w ->
  synced env (set_shapes (generatedShapes env (camera w) (draws w))
                         (set_draws (draws w + drawsPerGeneration env) w)).
Proof.
  intros D. split; [exact (textsDrawn_any env w _ D)|].
  exists (draws w). split; reflexivity.
Qed.

(** The script loaded: the world it is in, in terms of the first
    generation of the shapes. *)
Lemma main_exact (env : Env) (aspect0 : R) :
  textsDrawn env (preWorld aspect0) ->
  main env (preWorld aspect0)
  = (Js.Normal tt,
     animated env
       (set_posArray (repeat 0 (PARTICLE_COUNT env * 3))
          (set_shapes (generatedShapes env (mkCamera 75 aspect0 35) 0)
             (set_draws (drawsPerGeneration env) (preWorld aspect0))))).
Proof.
  intros D.
  pose proof (initShapes_exact env (preWorld aspect0) D) as E.
  destruct (initShapes_run env (preWorld aspect0)) as [s [d [Hw [_ [Hready _]]]]].
  rewrite E in Hw, Hready. cbn [fst snd] in Hw, Hready.
  rewrite (main_normal _ _ _ E).
  rewrite animate_run.
  - reflexivity.
  - apply ready_targets. cbn [shapes set_posArray set_shapes].
    assert (Hs : s = generatedShapes env (camera (preWorld aspect0)) (draws (preWorld aspect0))).
    { apply (f_equal shapes) in Hw. cbn [shapes set_shapes set_draws] in Hw.
      symmetry. exact Hw. }
    rewrite <- Hs. apply Hready. reflexivity.
Qed.

(** In every reachable world the point sets are those of the latest
    generation under the current camera. *)
Lemma reachable_synced (env : Env) (w : World) :
  reachable env w -> synced env w.
Proof.
  induction 1 as [aspect0 w Hmain|w e Hw IH].
  - assert (D : textsDrawn env (preWorld aspect0)).
    { apply (main_run env aspect0). rewrite Hmain. reflexivity. }
    rewrite (main_exact env aspect0 D) in Hmain. injection Hmain as <-.
    match goal with |- synced env (animated env ?W2) => set (W := W2) end.
    destruct (animated_frame env W) as [F1 [F2 [F3 _]]].
    apply (synced_frame env W _ F1 F2 F3).
    apply (synced_frame env
             (set_shapes (generatedShapes env (camera (preWorld aspect0))
                                          (draws (preWorld aspect0)))
                (set_draws (draws (preWorld aspect0) + drawsPerGeneration env)
                           (preWorld aspect0)))); try reflexivity.
    apply synced_after_initShapes. exact D.
  - destruct (reachable_keeps env w Hw) as [Hr Hp].
    unfold step. destruct e as [results| |newAspect]; cbn [handle].
    + pose proof (onResults_frame results w) as F. cbv zeta in F.
      destruct F as [F1 [F2 [F3 _]]].
      exact (synced_frame env w _ F1 F2 F3 IH).
    + destruct (animate_keeps env w Hr Hp) as [-> _]. cbn [snd].
      destruct (animated_frame env w) as [F1 [F2 [F3 _]]].
      exact (synced_frame env w _ F1 F2 F3 IH).
    + rewrite onResize_unfold.
      match goal with |- context [initShapes env ?w1] => set (W1 := w1) end.
      assert (D : textsDrawn env W1) by (destruct IH as [D _]; exact (textsDrawn_any env w W1 D)).
      rewrite (initShapes_exact env W1 D). cbn [snd].
      apply synced_after_initShapes. exact D.
Qed.

(* ===================================================================== *)
(** * Further properties: resize *)
(* ===================================================================== *)

Lemma pixelPoint_scaled (k s : R) (y x : nat) :
  pixelPoint (k * s) y x = scaled k (pixelPoint s y x).
Proof. unfold pixelPoint, scaled. cbn. f_equal; ring. Qed.

Lemma grid_map {A B C D : Type} (c : A -> B -> bool) (f : A -> B -> C) (h : C -> D)
    (ys : list A) (xs : list B) :
  flat_map (fun y => map (fun x => h (f y x)) (filter (c y) xs)) ys
  = map h (flat_map (fun y => map (f y) (filter (c y) xs)) ys).
Proof.
  induction ys as [|y ys IH]; cbn [flat_map map]; [reflexivity|].
  rewrite map_app, map_map, IH. reflexivity.
Qed.

(** Scaling the scale scales every sample. *)
Lemma scanImage_scaled (imageData : list Z) (k s : R) :
  scanImage imageData (k * s) = map (scaled k) (scanImage imageData s).
Proof.
  rewrite !scanImage_rows.
  rewrite <- (grid_map (fun y x => isForeground imageData x y) (pixelPoint s) (scaled k)).
  generalize (stride2 128) (stride2 512). intros ys xs.
  induction ys as [|y ys IH]; cbn [flat_map]; [reflexivity|].
  rewrite IH. f_equal. apply map_ext. intros x. apply pixelPoint_scaled.
Qed.

Lemma scaled_zero (k : R) : scaled k Vector3.zero = Vector3.zero.
Proof. unfold scaled, Vector3.zero. cbn. f_equal; ring. Qed.

Lemma cycled_map_scaled (k : R) (points : list Vector3.t) (n : nat) :
  cycled (map (scaled k) points) n = map (scaled k) (cycled points n).
Proof.
  unfold cycled. rewrite map_map, length_map. apply map_ext. intros i.
  rewrite <- (scaled_zero k) at 1. apply map_nth.
Qed.

Lemma generatedText_scaled (env : Env) (text : string) (c c' : Camera) (k : R) :
  responsiveScale c' = k * responsiveScale c ->
  generatedText env text c' = map (scaled k) (generatedText env text c).
Proof.
  intros E. unfold generatedText. rewrite E, scanImage_scaled.
  apply cycled_map_scaled.
Qed.

Lemma responsiveScale_aspect (c : Camera) (newAspect : R) :
  aspect c <> 0 ->
  responsiveScale (mkCamera (fov c) newAspect (camera_position_z c))
  = newAspect / aspect c * responsiveScale c.
Proof. intros H. unfold responsiveScale. cbn. field. exact H. Qed.

(** The resize listener in a synced world. *)
Lemma resize_exact (env : Env) (w : World) (newAspect : R) :
  synced env w ->
  onResize env newAspect w
  = (Js.Normal tt,
     set_shapes
       (generatedShapes env
          (mkCamera (fov (camera w)) newAspect (camera_position_z (camera w)))
          (draws w))
       (set_draws (draws w + drawsPerGeneration env)
          (set_camera
             (mkCamera (fov (camera w)) newAspect (camera_position_z (camera w))) w))).
Proof.
  intros [D _]. rewrite onResize_unfold.
  match goal with |- context [initShapes env ?w1] => set (W1 := w1) end.
  rewrite (initShapes_exact env W1 (textsDrawn_any env w W1 D)). reflexivity.
Qed.

Lemma generatedPlanet_core (env : Env) (d i : nat) :
  (i < coreCount env)%nat ->
  nth_error (generatedPlanet env d) i = Some (corePoint env i).
Proof.
  intros H. unfold generatedPlanet.
  destruct (core_ring_split env) as [Hsum _].
  rewrite nth_error_map, nth_error_seq.
  destruct (Nat.ltb_spec i (PARTICLE_COUNT env)) as [_|]; [|lia].
  cbn [option_map Nat.add].
  destruct (Nat.ltb_spec i (coreCount env)) as [_|]; [reflexivity|lia].
Qed.

(** X5.  A resize never throws in a reachable world, and it rescales the
    three text sets by the ratio of the new aspect ratio to the old:
    every point of every text set is multiplied by it, component by
    component, while every core point of the planet stays where it was. *)
Theorem resize_rescales_text :
  forall (env : Env) (w : World) (newAspect : R),
    reachable env w -> aspect (camera w) <> 0 ->
    let w' := step env w (Resize newAspect) in
    let k := newAspect / aspect (camera w) in
    fst (onResize env newAspect w) = Js.Normal tt /\
    aspect (camera w') = newAspect /\
    willYouPoints (shapes w') = map (scaled k) (willYouPoints (shapes w)) /\
    beMyPoints (shapes w') = map (scaled k) (beMyPoints (shapes w)) /\
    valentinesPoints (shapes w') = map (scaled k) (valentinesPoints (shapes w)) /\
    (forall i, (i < coreCount env)%nat ->
       nth_error (saturnPoints (shapes w')) i = nth_error (saturnPoints (shapes w)) i).
Proof.
  intros env w newAspect Hw Ha w' k.
  pose proof (reachable_synced env w Hw) as S.
  pose proof (resize_exact env w newAspect S) as E.
  destruct S as [_ [d [Hs _]]].
  assert (E' : w' = snd (onResize env newAspect w)) by reflexivity.
  rewrite E in E'. cbn [snd] in E'.
  pose proof (responsiveScale_aspect (camera w) newAspect Ha) as Hk.
  split; [rewrite E; reflexivity|]. rewrite E', Hs.
  cbn [shapes set_shapes camera set_draws set_camera aspect generatedShapes
       willYouPoints beMyPoints valentinesPoints saturnPoints].
  split; [reflexivity|].
  split; [exact (generatedText_scaled env _ _ _ _ Hk)|].
  split; [exact (generatedText_scaled env _ _ _ _ Hk)|].
  split; [exact (generatedText_scaled env _ _ _ _ Hk)|].
  intros i Hi. rewrite !generatedPlanet_core by exact Hi. reflexivity.
Qed.

Lemma loaded_aspect_one : aspect (camera (loaded dotEnv 1)) <> 0.
Proof. rewrite (loaded_camera dotEnv 1 (dot_drawn _ _ _)). cbn. lra. Qed.

Lemma resize_rescales_text_witness :
  reachable dotEnv (loaded dotEnv 1) /\
  aspect (camera (loaded dotEnv 1)) <> 0 /\
  fst (onResize dotEnv 2 (loaded dotEnv 1)) = Js.Normal tt.
Proof.
  assert (H : reachable dotEnv (loaded dotEnv 1))
    by (apply loaded_reachable, dot_drawn).
  split; [exact H|]. split; [exact loaded_aspect_one|].
  exact (proj1 (resize_rescales_text dotEnv (loaded dotEnv 1) 2 H loaded_aspect_one)).
Defined.

(* ===================================================================== *)
(** * Further properties: generation failures and random draws *)
(* ===================================================================== *)

Lemma text_step_throw {B : Type} (env : Env) (text : string)
    (set : list Vector3.t -> Shapes -> Shapes) (k : M B) (w : World) :
  length (samples env text w) = 0%nat ->
  bind (createTextPoints env text (PARTICLE_COUNT env))
       (fun l => bind (assign (set l)) (fun _ => k)) w
  = (Js.Throw Js.TypeError, w).
Proof.
  intros H. apply length_zero_iff_nil in H. rewrite text_step.
  rewrite (createTextPoints_empty_throws env text _ w H); [reflexivity|].
  pose proof (PARTICLE_COUNT_pos env). lia.
Qed.

Lemma drawn_or_not (env : Env) (text : string) (w : World) :
  (1 <= length (samples env text w))%nat \/ length (samples env text w) = 0%nat.
Proof. destruct (length (samples env text w)); [right; reflexivity|left; lia]. Qed.

(** When some text has no foreground sample [initShapes] throws a
    [TypeError] at the first such text: the text sets before it are
    already replaced, everything else is as it was. *)
Lemma initShapes_throws (env : Env) (w : World) :
  ~ textsDrawn env w ->
  exists s,
    initShapes env w = (Js.Throw Js.TypeError, set_shapes s w) /\
    saturnPoints s = saturnPoints (shapes w) /\
    randomPoints s = randomPoints (shapes w) /\
    valentinesPoints s = valentinesPoints (shapes w).
Proof.
  intros Hn. unfold initShapes.
  rewrite (bind_normal _ _ _ _ _ (getResponsiveScale_run w)).
  destruct (drawn_or_not env "WILL YOU" w) as [D1|D1].
  2:{ rewrite (text_step_throw env _ _ _ w D1).
      exists (shapes w). split; [destruct w; reflexivity|]. repeat split. }
  rewrite (text_step_exact env _ _ _ w D1).
  match goal with |- context [bind _ _ ?w1] => set (W1 := w1) end.
  destruct (drawn_or_not env "BE MY" W1) as [D2|D2].
  2:{ rewrite (text_step_throw env _ _ _ W1 D2).
      exists (shapes W1). split; [subst W1; destruct w; reflexivity|]. repeat split. }
  rewrite (text_step_exact env _ _ _ W1 D2).
  match goal with |- context [bind _ _ ?w2] => set (W2 := w2) end.
  destruct (drawn_or_not env "VALENTINE?" W2) as [D3|D3].
  2:{ rewrite (text_step_throw env _ _ _ W2 D3).
      exists (shapes W2). split; [subst W2 W1; destruct w; reflexivity|]. repeat split. }
  exfalso. apply Hn.
  split; [exact D1|]. split; [exact (drawn_any env _ W1 w D2)|exact (drawn_any env _ W2 w D3)].
Qed.

Lemma textsDrawn_dec (env : Env) (w : World) : textsDrawn env w \/ ~ textsDrawn env w.
Proof.
  unfold textsDrawn.
  destruct (drawn_or_not env "WILL YOU" w) as [D1|D1]; [|right; lia].
  destruct (drawn_or_not env "BE MY" w) as [D2|D2]; [|right; lia].
  destruct (drawn_or_not env "VALENTINE?" w) as [D3|D3]; [|right; lia].
  left. tauto.
Qed.

(** X6.  [initShapes] returns exactly when each of the three texts has a
    foreground sample, and then consumes 3 N + 3 (0.6 N) random values;
    otherwise it throws a [TypeError] before any random value is drawn,
    leaving the planet, the cloud and the last text set as they were. *)
Theorem initShapes_outcome :
  forall (env : Env) (w : World),
    (textsDrawn env w /\
     initShapes env w
     = (Js.Normal tt,
        set_shapes (generatedShapes env (camera w) (draws w))
                   (set_draws (draws w + drawsPerGeneration env) w)))
    \/
    (~ textsDrawn env w /\
     exists s,
       initShapes env w = (Js.Throw Js.TypeError, set_shapes s w) /\
       saturnPoints s = saturnPoints (shapes w) /\
       randomPoints s = randomPoints (shapes w) /\
       valentinesPoints s = valentinesPoints (shapes w)).
Proof.
  intros env w. destruct (textsDrawn_dec env w) as [D|D].
  - left. split; [exact D|apply initShapes_exact; exact D].
  - right. split; [exact D|apply initShapes_throws; exact D].
Qed.

Lemma generatedCloud_nth (env : Env) (d j : nat) :
  (j < PARTICLE_COUNT env)%nat ->
  nth_error (generatedCloud env d) j = Some (cloudPoint env (d + 3 * j)).
Proof.
  intros H. unfold generatedCloud. rewrite nth_error_map, nth_error_seq.
  destruct (Nat.ltb_spec j (PARTICLE_COUNT env)) as [_|]; [reflexivity|lia].
Qed.

Lemma generatedPlanet_ring (env : Env) (d i : nat) :
  (coreCount env <= i < PARTICLE_COUNT env)%nat ->
  nth_error (generatedPlanet env d) i
  = Some (ringPoint env (d + 3 * (i - coreCount env))).
Proof.
  intros H. unfold generatedPlanet. rewrite nth_error_map, nth_error_seq.
  destruct (Nat.ltb_spec i (PARTICLE_COUNT env)) as [_|]; [|lia].
  cbn [option_map Nat.add].
  destruct (Nat.ltb_spec i (coreCount env)) as [|_]; [lia|reflexivity].
Qed.

(** X7.  In every reachable world, with [Math.random()] in [0, 1), every
    point of the dispersed cloud lies in the cube of half-extent 30
    around the origin, upper faces excluded. *)
Theorem cloud_in_cube :
  forall (env : Env) (w : World),
    randomInRange env -> reachable env w ->
    Forall (fun p => -30 <= Vector3.x p < 30 /\ -30 <= Vector3.y p < 30 /\
                     -30 <= Vector3.z p < 30)
           (randomPoints (shapes w)).
Proof.
  intros env w Hr Hw. apply Forall_forall. intros p Hp.
  destruct (reachable_synced env w Hw) as [_ [d [Hs _]]].
  rewrite Hs in Hp. cbn [randomPoints generatedShapes] in Hp.
  unfold generatedCloud in Hp. apply in_map_iff in Hp.
  destruct Hp as [j [<- _]].
  pose proof (Hr (d + 3 * j)%nat). pose proof (Hr (S (d + 3 * j))).
  pose proof (Hr (S (S (d + 3 * j)))).
  unfold cloudPoint. cbn [Vector3.x Vector3.y Vector3.z]. repeat split; lra.
Qed.

Lemma cloud_in_cube_witness :
  randomInRange dotEnv /\ reachable dotEnv (loaded dotEnv 1) /\
  Forall (fun p => -30 <= Vector3.x p < 30 /\ -30 <= Vector3.y p < 30 /\
                   -30 <= Vector3.z p < 30)
         (randomPoints (shapes (loaded dotEnv 1))).
Proof.
  assert (H1 : randomInRange dotEnv) by apply constant_zero_in_range.
  assert (H2 : reachable dotEnv (loaded dotEnv 1))
    by (apply loaded_reachable, dot_drawn).
  split; [exact H1|]. split; [exact H2|].
  exact (cloud_in_cube dotEnv (loaded dotEnv 1) H1 H2).
Defined.

(** X8.  In every reachable world the random shapes were built from
    consecutive, unshared values of [Math.random()]: cloud point j from
    values d + 3j, d + 3j + 1, d + 3j + 2, and ring point i of the planet
    from the three values starting at d + 3N + 3(i - coreCount); a
    generation consumes 3N + 3(0.6 N) values in all and so does every
    resize. *)
Theorem shapes_use_fresh_randoms :
  forall (env : Env) (w : World),
    reachable env w ->
    exists d,
      draws w = (d + 3 * PARTICLE_COUNT env + 3 * ringCount env)%nat /\
      (forall j, (j < PARTICLE_COUNT env)%nat ->
         nth_error (randomPoints (shapes w)) j = Some (cloudPoint env (d + 3 * j))) /\
      (forall i, (coreCount env <= i < PARTICLE_COUNT env)%nat ->
         nth_error (saturnPoints (shapes w)) i
         = Some (ringPoint env (d + 3 * PARTICLE_COUNT env + 3 * (i - coreCount env)))) /\
      (forall newAspect,
         draws (step env w (Resize newAspect))
         = (draws w + 3 * PARTICLE_COUNT env + 3 * ringCount env)%nat).
Proof.
  intros env w Hw.
  pose proof (reachable_synced env w Hw) as S.
  destruct S as [D [d [Hs Hd]]].
  exists d. rewrite Hs, Hd. cbn [randomPoints saturnPoints generatedShapes].
  unfold drawsPerGeneration.
  split; [lia|]. split; [intros j Hj; apply generatedCloud_nth; exact Hj|].
  split; [intros i Hi; apply generatedPlanet_ring; exact Hi|].
  intros newAspect. unfold step. cbn [handle].
  rewrite (resize_exact env w newAspect (reachable_synced env w Hw)).
  cbn [snd draws set_shapes set_draws]. unfold drawsPerGeneration in *. lia.
Qed.

Lemma shapes_use_fresh_randoms_witness :
  reachable dotEnv (loaded dotEnv 1) /\
  exists d,
    draws (loaded dotEnv 1)
    = (d + 3 * PARTICLE_COUNT dotEnv + 3 * ringCount dotEnv)%nat.
Proof.
  assert (H : reachable dotEnv (loaded dotEnv 1))
    by (apply loaded_reachable, dot_drawn).
  split; [exact H|].
  destruct (shapes_use_fresh_randoms dotEnv (loaded dotEnv 1) H) as [d [Hd _]].
  exists d. exact Hd.
Defined.

(* ===================================================================== *)
(** * Further properties: the landmark handler *)
(* ===================================================================== *)

(** A hand with a landmark missing: the handler throws and stores no
    gesture. *)
Lemma onResults_short_hand (w : World) (lm : list Landmark)
    (others : list (list Landmark)) :
  (length lm < 21)%nat ->
  fst (onResults (handFrame lm others) w) = Js.Throw Js.TypeError /\
  currentGesture (snd (onResults (handFrame lm others) w)) = currentGesture w.
Proof.
  intros H.
  assert (E20 : nth_error lm 20 = None) by (apply nth_error_None; lia).
  unfold onResults, handFrame, landmark, bind, lift, modify.
  cbn [multiHandLandmarks].
  destruct (nth_error lm 0); [|split; reflexivity].
  destruct (nth_error lm 8); [|split; reflexivity].
  destruct (nth_error lm 6); [|split; reflexivity].
  destruct (nth_error lm 12); [|split; reflexivity].
  destruct (nth_error lm 10); [|split; reflexivity].
  rewrite E20. split; reflexivity.
Qed.

Lemma classify_not_none (i m p t : bool) : classify i m p t <> none.
Proof. destruct i, m, p, t; discriminate. Qed.

Lemma results_cases (r : Results) :
  noHand r \/ exists lm others, r = handFrame lm others.
Proof.
  destruct r as [[[|lm others]|]].
  - left. right. reflexivity.
  - right. exists lm, others. reflexivity.
  - left. left. reflexivity.
Qed.

(** X9.  The gesture is [none] exactly after a frame without a hand: a
    frame the handler returns from leaves the gesture [none] if and only
    if it reported no hand, and a frame it throws on leaves the gesture
    unchanged. *)
Theorem gesture_none_iff_no_hand :
  forall (w : World) (r : Results),
    (fst (onResults r w) = Js.Normal tt ->
     (currentGesture (snd (onResults r w)) = none <-> noHand r)) /\
    (fst (onResults r w) <> Js.Normal tt ->
     currentGesture (snd (onResults r w)) = currentGesture w).
Proof.
  intros w r. destruct (results_cases r) as [Hn|[lm [others ->]]].
  - rewrite (onResults_noHand w r Hn). cbn [fst snd]. split.
    + intros _. split; [intros _; exact Hn|reflexivity].
    + intros H. exfalso. apply H. reflexivity.
  - assert (Hhand : ~ noHand (handFrame lm others))
      by (intros [H|H]; discriminate H).
    destruct (Nat.lt_ge_cases 20 (length lm)) as [Hl|Hl].
    + destruct (onResults_hand w lm others Hl) as [wrist [_ E]].
      rewrite E. cbn [fst snd currentGesture set_currentGesture]. split.
      * intros _. split; [|tauto].
        intros H. exfalso. exact (classify_not_none _ _ _ _ H).
      * intros H. exfalso. apply H. reflexivity.
    + destruct (onResults_short_hand w lm others) as [E1 E2]; [lia|].
      rewrite E1, E2. split; [discriminate|reflexivity].
Qed.

(** X10.  The gestures as sets of finger patterns: which combinations of
    the four predicates give each gesture.  The thumb decides between
    [like] and the rest only when index and middle are both down, so
    [fist] needs all four fingers down, and no pattern gives [none]. *)
Theorem gesture_patterns :
  forall (i m p t : bool),
    (classify i m p t = peace <-> i = true /\ m = true /\ p = false) /\
    (classify i m p t = rock <-> i = true /\ m = false /\ p = true) /\
    (classify i m p t = like <-> i = false /\ m = false /\ t = true) /\
    (classify i m p t = fist <-> i = false /\ m = false /\ p = false /\ t = false) /\
    (classify i m p t = detected <->
       (i = true /\ m = p) \/ (i = false /\ m = true) \/
       (i = false /\ m = false /\ p = true /\ t = false)) /\
    classify i m p t <> none /\
    (i = true \/ m = true -> classify i m p t = classify i m p (negb t)).
Proof.
  intros i m p t.
  destruct i, m, p, t; cbn;
    repeat split; try discriminate; try reflexivity; intros;
    try (exfalso; intuition discriminate);
    try (intuition (discriminate || reflexivity)).
Qed.

(** X11.  The displacement is set from the wrist of the current frame
    alone, mirrored and inverted: x = 20 - 40 wrist.x and
    y = 15 - 30 wrist.y, whatever it was before; for a wrist inside the
    image it lies in [-20, 20] x [-15, 15], and it moves left when the
    wrist moves right. *)
Theorem displacement_from_wrist :
  forall (w1 w2 : World) (lm1 lm2 : list Landmark) (others1 others2 : list (list Landmark))
         (wrist1 wrist2 : Landmark),
    (20 < length lm1)%nat -> (20 < length lm2)%nat ->
    nth_error lm1 0 = Some wrist1 -> nth_error lm2 0 = Some wrist2 ->
    let d1 := handDisplacement (snd (onResults (handFrame lm1 others1) w1)) in
    let d2 := handDisplacement (snd (onResults (handFrame lm2 others2) w2)) in
    Vector3.x d1 = 20 - 40 * lm_x wrist1 /\
    Vector3.y d1 = 15 - 30 * lm_y wrist1 /\
    (0 <= lm_x wrist1 <= 1 -> -20 <= Vector3.x d1 <= 20) /\
    (0 <= lm_y wrist1 <= 1 -> -15 <= Vector3.y d1 <= 15) /\
    (lm_x wrist1 <= lm_x wrist2 -> Vector3.x d2 <= Vector3.x d1) /\
    (lm_y wrist1 <= lm_y wrist2 -> Vector3.y d2 <= Vector3.y d1) /\
    (lm_x wrist1 = lm_x wrist2 -> lm_y wrist1 = lm_y wrist2 ->
     Vector3.x d1 = Vector3.x d2 /\ Vector3.y d1 = Vector3.y d2).
Proof.
  intros w1 w2 lm1 lm2 others1 others2 wrist1 wrist2 H1 H2 E1 E2 d1 d2.
  destruct (onResults_hand w1 lm1 others1 H1) as [a1 [A1 R1]].
  destruct (onResults_hand w2 lm2 others2 H2) as [a2 [A2 R2]].
  rewrite E1 in A1. injection A1 as <-. rewrite E2 in A2. injection A2 as <-.
  unfold d1, d2. rewrite R1, R2.
  cbn [snd handDisplacement set_currentGesture set_handDisplacement
       Vector3.x Vector3.y].
  repeat split; intros; lra.
Qed.

Lemma displacement_from_wrist_witness :
  (20 < length flatHand)%nat /\
  Vector3.x (handDisplacement (snd (onResults (handFrame flatHand []) peaceWorld)))
  = 20 - 40 * 0.5.
Proof.
  assert (H : (20 < length flatHand)%nat) by (cbn; lia).
  split; [exact H|].
  exact (proj1 (displacement_from_wrist peaceWorld peaceWorld flatHand flatHand [] []
                  (mkLandmark 0.5 0.5 0) (mkLandmark 0.5 0.5 0) H H eq_refl eq_refl)).
Defined.

(* ===================================================================== *)
(** * Further properties: the render loop *)
(* ===================================================================== *)

(** One frame, any gesture: every coordinate of every particle takes one
    eased step toward the set [animate] reads, with that frame's drift. *)
Lemma animated_particle_any (env : Env) (w : World) (i a : nat) :
  ready env w -> (i < PARTICLE_COUNT env)%nat -> (a < 3)%nat ->
  axis a (particle (posArray (animated env w)) i)
  = eased (axis a (nth i (targetsOf w (selectTarget w)) Vector3.zero))
          (driftOf (set_time (time w + 0.01) w) (selectTarget w) i)
          (axis a (particle (posArray w) i)).
Proof.
  intros [_ Hp] Hi Ha.
  rewrite !axis_particle by exact Ha.
  unfold animated. cbn [posArray set_posArray].
  change (selectTarget (set_time (time w + 0.01) w)) with (selectTarget w).
  change (targetsOf (set_time (time w + 0.01) w) (selectTarget w))
    with (targetsOf w (selectTarget w)).
  destruct (nth_error_present (posArray w) (i * 3 + a)) as [p Hpv]; [lia|].
  pose proof (morphedArray_nth (targetsOf w (selectTarget w))
                (driftOf (set_time (time w + 0.01) w) (selectTarget w))
                (PARTICLE_COUNT env) 0 (posArray w) i a Ha) as Hn.
  rewrite Hpv in Hn. cbn [option_map] in Hn.
  rewrite (nth_error_nth _ _ 0 (Hn ltac:(lia))).
  rewrite (nth_error_nth _ _ 0 Hpv). reflexivity.
Qed.

(** What rendering frames leaves alone, and what it advances. *)
Lemma frames_frame (env : Env) (w : World) (k : nat) :
  ready env w ->
  ready env (frames env w k) /\
  camera (frames env w k) = camera w /\
  draws (frames env w k) = draws w /\
  shapes (frames env w k) = shapes w /\
  currentGesture (frames env w k) = currentGesture w /\
  handDisplacement (frames env w k) = handDisplacement w /\
  time (frames env w k) = time w + INR k * 0.01 /\
  frames env w (S k) = animated env (frames env w k) /\
  animate env (frames env w k) = (Js.Normal tt, frames env w (S k)).
Proof.
  intros H. induction k as [|k IH].
  - destruct (frames_ready env w 0 H) as [Hr [_ HS]].
    destruct (animate_ready env _ Hr) as [Ha _].
    rewrite (HS Hr).
    split; [exact Hr|]. do 5 (split; [reflexivity|]).
    split; [cbn [frames run repeat fold_left INR]; lra|].
    split; [reflexivity|exact Ha].
  - destruct IH as [Hr [F1 [F2 [F3 [F4 [F5 [F6 [E _]]]]]]]].
    destruct (frames_ready env w (S k) H) as [Hr' [_ HS]].
    destruct (animate_ready env _ Hr') as [Ha _].
    destruct (animated_frame env (frames env w k)) as [G1 [G2 [G3 [G4 [G5 [G6 _]]]]]].
    rewrite (HS Hr'). split; [exact Hr'|].
    rewrite E, G1, G2, G3, G4, G5, G6, F1, F2, F3, F4, F5, F6.
    do 5 (split; [reflexivity|]).
    split; [rewrite S_INR; lra|].
    split; [reflexivity|]. rewrite <- E. exact Ha.
Qed.

(** X12.  Rendering frames in a world whose shapes and buffer are in
    place never throws and touches only the clock, the cloud's
    translation and the particle buffer: after k frames the clock has
    advanced by k times 0.01 while camera, random draws, point sets,
    gesture and displacement are as before and the buffer has kept its
    length. *)
Theorem frames_only_animate :
  forall (env : Env) (w : World) (k : nat),
    ready env w ->
    fst (animate env (frames env w k)) = Js.Normal tt /\
    time (frames env w k) = time w + INR k * 0.01 /\
    camera (frames env w k) = camera w /\
    draws (frames env w k) = draws w /\
    shapes (frames env w k) = shapes w /\
    currentGesture (frames env w k) = currentGesture w /\
    handDisplacement (frames env w k) = handDisplacement w /\
    length (posArray (frames env w k)) = length (posArray w).
Proof.
  intros env w k H.
  destruct (frames_frame env w k H) as [[_ Hl] [F1 [F2 [F3 [F4 [F5 [F6 [_ Ha]]]]]]]].
  rewrite Ha. destruct H as [_ Hl0].
  split; [reflexivity|]. split; [exact F6|]. split; [exact F1|]. split; [exact F2|].
  split; [exact F3|]. split; [exact F4|]. split; [exact F5|]. congruence.
Qed.

Lemma frames_only_animate_witness :
  ready dotEnv fistWorld /\
  time (frames dotEnv fistWorld 100) = time fistWorld + INR 100 * 0.01.
Proof.
  split; [exact fistWorld_ready|].
  destruct (frames_only_animate dotEnv fistWorld 100 fistWorld_ready) as [_ [T _]].
  exact T.
Defined.

Lemma lerp_offset (p h : Vector3.t) (a : nat) :
  axis a (Vector3.lerp p h ELASTICITY) - axis a h
  = (1 - 0.05) * (axis a p - axis a h).
Proof.
  unfold Vector3.lerp, ELASTICITY.
  destruct a as [|[|a]]; cbn [axis Vector3.x Vector3.y Vector3.z]; lra.
Qed.

Lemma elasticity_power_bounds (k : nat) : 0 < (1 - 0.05) ^ k <= 1.
Proof. induction k as [|k IH]; cbn [pow]; lra. Qed.

(** X13.  While no landmark frame arrives the cloud's translation eases
    toward the hand displacement: per frame every component covers 5% of
    what is left, so after k frames the offset is 0.95^k times the
    initial one, the distance never grows and shrinks while the cloud is
    not at the hand. *)
Theorem cloud_follows_hand :
  forall (env : Env) (w : World),
    ready env w ->
    let h := handDisplacement w in
    let q := fun k => position (frames env w k) in
    (forall k, q (S k) = Vector3.lerp (q k) h 0.05) /\
    (forall k a, axis a (q k) - axis a h = (1 - 0.05) ^ k * (axis a (q 0%nat) - axis a h)) /\
    (forall k, Vector3.distanceTo (q k) h
               = (1 - 0.05) ^ k * Vector3.distanceTo (q 0%nat) h) /\
    (forall k, q k <> h ->
       Vector3.distanceTo (q (S k)) h < Vector3.distanceTo (q k) h).
Proof.
  intros env w H h q.
  assert (Hstep : forall k, q (S k) = Vector3.lerp (q k) h ELASTICITY).
  { intros k. unfold q, h.
    destruct (frames_frame env w k H) as [_ [_ [_ [_ [_ [F5 [_ [E _]]]]]]]].
    rewrite E.
    destruct (animated_frame env (frames env w k)) as [_ [_ [_ [_ [_ [_ [G _]]]]]]].
    rewrite G, F5. reflexivity. }
  assert (Hoff : forall k a, axis a (q k) - axis a h
                            = (1 - 0.05) ^ k * (axis a (q 0%nat) - axis a h)).
  { intros k a. induction k as [|k IH]; [cbn [pow]; lra|].
    rewrite Hstep, lerp_offset, IH. cbn [pow]. ring. }
  assert (Hd : forall v v0 c, 0 <= c ->
            (forall a, axis a v - axis a h = c * (axis a v0 - axis a h)) ->
            Vector3.distanceTo v h = c * Vector3.distanceTo v0 h).
  { intros v v0 c Hc Ha. apply distanceTo_scaled; [exact Hc|].
    intros a _. pose proof (Ha a). lra. }
  split; [exact Hstep|]. split; [exact Hoff|]. split.
  - intros k. apply Hd; [destruct (elasticity_power_bounds k); lra|].
    intros a. apply Hoff.
  - intros k Hne. pose proof (distanceTo_pos _ _ Hne) as Hpos.
    rewrite (Hd (q (S k)) (q k) (1 - 0.05)); [lra|lra|].
    intros a. rewrite Hstep. apply lerp_offset.
Qed.

Lemma cloud_follows_hand_witness :
  ready dotEnv fistWorld /\
  Vector3.distanceTo (position (frames dotEnv fistWorld 10)) (handDisplacement fistWorld)
  = (1 - 0.05) ^ 10
    * Vector3.distanceTo (position (frames dotEnv fistWorld 0)) (handDisplacement fistWorld).
Proof.
  split; [exact fistWorld_ready|].
  pose proof (cloud_follows_hand dotEnv fistWorld fistWorld_ready) as T.
  cbv zeta in T. destruct T as [_ [_ [T _]]]. exact (T 10%nat).
Defined.

Lemma abs_step (e delta : R) :
  Rabs delta <= 0.04 -> Rabs ((1 - 0.08) * e + delta) <= (1 - 0.08) * Rabs e + 0.04.
Proof.
  intros Hd.
  pose proof (Rle_abs e) as H1. pose proof (Rle_abs (- e)) as H2.
  rewrite Rabs_Ropp in H2.
  pose proof (Rle_abs delta) as H3. pose proof (Rle_abs (- delta)) as H4.
  rewrite Rabs_Ropp in H4.
  apply Rabs_le. lra.
Qed.

Lemma drift_small (x : R) : Rabs (sin x * 0.04) <= 0.04.
Proof. pose proof (SIN_bound x). apply Rabs_le. lra. Qed.

Lemma bound_step_identity (X D : R) :
  (1 - 0.08) * (X * D + 0.5 * (1 - X)) + 0.04
  = (1 - 0.08) * X * D + 0.5 * (1 - (1 - 0.08) * X).
Proof. lra. Qed.

(** X14.  Idle motion stays near the cloud.  With no shape selected every
    coordinate of every particle takes the smoothing step toward its
    cloud point plus a drift of at most 0.04, so its offset e from the
    cloud point satisfies |e'| <= 0.92 |e| + 0.04: after k frames it is at
    most 0.92^k |e0| + 0.5, and once within 0.5 it stays within 0.5. *)
Theorem idle_drift_bounded :
  forall (env : Env) (w : World) (i a : nat),
    ready env w -> selectTarget w = None ->
    (i < PARTICLE_COUNT env)%nat -> (a < 3)%nat ->
    let c := axis a (nth i (randomPoints (shapes w)) Vector3.zero) in
    let p := fun k => axis a (particle (posArray (frames env w k)) i) in
    (forall k, p (S k) = p k + (c - p k) * 0.08
                         + sin (time w + INR (S k) * 0.01 + INR i) * 0.04) /\
    (forall k, Rabs (p (S k) - c) <= (1 - 0.08) * Rabs (p k - c) + 0.04) /\
    (forall k, Rabs (p k - c) <= (1 - 0.08) ^ k * Rabs (p 0%nat - c) + 0.5) /\
    (Rabs (p 0%nat - c) <= 0.5 -> forall k, Rabs (p k - c) <= 0.5).
Proof.
  intros env w i a H HT Hi Ha c p.
  assert (Hstep : forall k, p (S k) = p k + (c - p k) * 0.08
                    + sin (time w + INR (S k) * 0.01 + INR i) * 0.04).
  { intros k. unfold p, c.
    destruct (frames_frame env w k H) as [Hr [_ [_ [F3 [_ [_ [F6 [E _]]]]]]]].
    destruct (frames_ready env w k H) as [_ [Hsel _]].
    rewrite E, (animated_particle_any env _ i a Hr Hi Ha), Hsel, HT.
    unfold targetsOf, driftOf, eased, SMOOTHING. cbn [time set_time].
    rewrite F3, F6, S_INR.
    replace (time w + INR k * 0.01 + 0.01 + INR i)
      with (time w + (INR k + 1) * 0.01 + INR i) by lra.
    lra. }
  assert (Hone : forall k, Rabs (p (S k) - c) <= (1 - 0.08) * Rabs (p k - c) + 0.04).
  { intros k. rewrite Hstep.
    replace (p k + (c - p k) * 0.08 + sin (time w + INR (S k) * 0.01 + INR i) * 0.04 - c)
      with ((1 - 0.08) * (p k - c) + sin (time w + INR (S k) * 0.01 + INR i) * 0.04)
      by lra.
    apply abs_step. apply drift_small. }
  assert (Hall : forall k, Rabs (p k - c)
             <= (1 - 0.08) ^ k * Rabs (p 0%nat - c) + 0.5 * (1 - (1 - 0.08) ^ k)).
  { intros k. induction k as [|k IH]; [cbn [pow]; lra|].
    pose proof (Hone k) as Hk. cbn [pow].
    set (X := (1 - 0.08) ^ k) in *. set (D := Rabs (p 0%nat - c)) in *.
    pose proof (bound_step_identity X D) as E.
    lra. }
  split; [exact Hstep|]. split; [exact Hone|]. split.
  - intros k. pose proof (Hall k). destruct (smoothing_power_bounds k) as [Hq _].
    unfold SMOOTHING in Hq. lra.
  - intros H0 k. pose proof (Hall k).
    destruct (smoothing_power_bounds k) as [Hq Hq1]. unfold SMOOTHING in Hq, Hq1.
    set (X := (1 - 0.08) ^ k) in *. nra.
Qed.

Lemma idle_drift_bounded_witness :
  ready dotEnv (loaded dotEnv 1) /\
  selectTarget (set_currentGesture none (loaded dotEnv 1)) = None /\
  (0 < PARTICLE_COUNT dotEnv)%nat /\
  Rabs (axis 0 (particle (posArray (frames dotEnv
                                     (set_currentGesture none (loaded dotEnv 1)) 1)) 0)
        - axis 0 (nth 0 (randomPoints
                           (shapes (set_currentGesture none (loaded dotEnv 1))))
                      Vector3.zero))
  <= (1 - 0.08)
     * Rabs (axis 0 (particle (posArray (frames dotEnv
                                           (set_currentGesture none (loaded dotEnv 1)) 0)) 0)
             - axis 0 (nth 0 (randomPoints
                                (shapes (set_currentGesture none (loaded dotEnv 1))))
                           Vector3.zero))
     + 0.04.
Proof.
  assert (H0 : ready dotEnv (loaded dotEnv 1)).
  { apply (reachable_keeps dotEnv (loaded dotEnv 1)).
    apply loaded_reachable, dot_drawn. }
  pose proof (ready_set_currentGesture dotEnv none _ H0) as H1.
  pose proof (PARTICLE_COUNT_pos dotEnv) as H3.
  split; [exact H0|]. split; [reflexivity|]. split; [exact H3|].
  pose proof (idle_drift_bounded dotEnv (set_currentGesture none (loaded dotEnv 1))
                0 0 H1 eq_refl H3 ltac:(lia)) as T.
  cbv zeta in T. destruct T as [_ [T _]]. exact (T 0%nat).
Defined.

Lemma selectTarget_shapeFor (w : World) :
  targetsOf w (selectTarget w) = shapeFor (currentGesture w) (shapes w) /\
  forall t i, driftOf (set_time t w) (selectTarget w) i
              = if drifts (currentGesture w) then sin (t + INR i) * 0.04 else 0.
Proof.
  unfold targetsOf, selectTarget, driftOf, shapeFor, drifts.
  destruct (currentGesture w); split; reflexivity.
Qed.

(** X15.  From hand to particles.  After a frame with a complete hand,
    the next rendered frame moves every coordinate of every particle 8%
    of the way toward the shape of the gesture just classified (peace:
    WILL YOU, rock: BE MY, like: VALENTINE?, fist: the planet) without
    drift, or, for an unclassified hand, toward the dispersed cloud with
    the drift sin(time + i) 0.04. *)
Theorem frame_after_hand :
  forall (env : Env) (w : World) (lm : list Landmark) (others : list (list Landmark))
         (i a : nat),
    ready env w -> (20 < length lm)%nat ->
    (i < PARTICLE_COUNT env)%nat -> (a < 3)%nat ->
    let g := classify (fingerExtended lm 8 6) (fingerExtended lm 12 10)
                      (fingerExtended lm 20 18) (fingerExtended lm 4 2) in
    let w1 := snd (onResults (handFrame lm others) w) in
    let p := axis a (particle (posArray w) i) in
    let c := axis a (nth i (shapeFor g (shapes w)) Vector3.zero) in
    fst (animate env w1) = Js.Normal tt /\
    axis a (particle (posArray (snd (animate env w1))) i)
    = p + (c - p) * 0.08
      + (if drifts g then sin (time w + 0.01 + INR i) * 0.04 else 0).
Proof.
  intros env w lm others i a H Hl Hi Ha g w1 p c.
  destruct (onResults_hand w lm others Hl) as [wrist [_ E]].
  assert (E1 : w1 = snd (onResults (handFrame lm others) w)) by reflexivity.
  rewrite E in E1. cbn [snd] in E1. fold g in E1.
  assert (H1 : ready env w1) by (rewrite E1; exact H).
  destruct (animate_ready env w1 H1) as [Ea _].
  rewrite Ea. cbn [fst snd]. split; [reflexivity|].
  rewrite (animated_particle_any env w1 i a H1 Hi Ha).
  destruct (selectTarget_shapeFor w1) as [-> ->].
  unfold p, c, eased, SMOOTHING. rewrite E1.
  cbn [currentGesture shapes posArray time set_currentGesture set_handDisplacement].
  lra.
Qed.

Lemma frame_after_hand_witness :
  ready dotEnv fistWorld /\ (20 < length flatHand)%nat /\
  (0 < PARTICLE_COUNT dotEnv)%nat /\
  fst (animate dotEnv (snd (onResults (handFrame flatHand []) fistWorld))) = Js.Normal tt.
Proof.
  assert (H2 : (20 < length flatHand)%nat) by (cbn; lia).
  pose proof (PARTICLE_COUNT_pos dotEnv) as H3.
  split; [exact fistWorld_ready|]. split; [exact H2|]. split; [exact H3|].
  exact (proj1 (frame_after_hand dotEnv fistWorld flatHand [] 0 0
                  fistWorld_ready H2 H3 ltac:(lia))).
Defined.

(** X16.  In a reachable world the only event whose handler throws is a
    landmark frame whose first hand has fewer than 21 landmarks, and it
    throws a [TypeError]: rendering a frame, resizing and every other
    landmark frame return normally. *)
Theorem only_short_hands_throw :
  forall (env : Env) (w : World) (e : Event),
    reachable env w ->
    fst (handle env e w) = Js.Normal tt \/
    (exists lm others,
       e = LandmarkFrame (handFrame lm others) /\ (length lm < 21)%nat /\
       fst (handle env e w) = Js.Throw Js.TypeError).
Proof.
  intros env w e Hw.
  destruct (reachable_keeps env w Hw) as [Hr Hp].
  destruct e as [r| |newAspect]; cbn [handle].
  - destruct (results_cases r) as [Hn|[lm [others ->]]].
    + left. rewrite (onResults_noHand w r Hn). reflexivity.
    + destruct (Nat.lt_ge_cases 20 (length lm)) as [Hl|Hl].
      * left. destruct (onResults_hand w lm others Hl) as [wrist [_ E]].
        rewrite E. reflexivity.
      * right. exists lm, others. split; [reflexivity|]. split; [lia|].
        apply onResults_short_hand. lia.
  - left. destruct (animate_ready env w Hr) as [-> _]. reflexivity.
  - left. rewrite (resize_exact env w newAspect (reachable_synced env w Hw)).
    reflexivity.
Qed.

Lemma only_short_hands_throw_witness :
  reachable dotEnv (loaded dotEnv 1) /\
  fst (handle dotEnv (LandmarkFrame (handFrame wristOnly [])) (loaded dotEnv 1))
  = Js.Throw Js.TypeError.
Proof.
  assert (H : reachable dotEnv (loaded dotEnv 1))
    by (apply loaded_reachable, dot_drawn).
  split; [exact H|].
  destruct (only_short_hands_throw dotEnv (loaded dotEnv 1)
              (LandmarkFrame (handFrame wristOnly [])) H) as [T|[lm [others [_ [_ T]]]]].
  - exfalso. cbn [handle] in T.
    rewrite (proj1 (onResults_short_hand (loaded dotEnv 1) wristOnly []
                      ltac:(cbn; lia))) in T.
    discriminate T.
  - exact T.
Defined.

(** X17.  The script loads exactly when each of the three texts has a
    foreground sample; otherwise loading ends with a [TypeError].  Once
    loaded, the clock reads 0.01, the gesture is [none], displacement and
    translation are zero, the camera has field of view 75 at distance 35,
    the point sets are those of the first generation and every particle
    has taken one idle step from the origin toward its cloud point. *)
Theorem script_load :
  forall (env : Env) (aspect0 : R),
    (fst (main env (preWorld aspect0)) = Js.Normal tt
     <-> textsDrawn env (preWorld aspect0)) /\
    (~ textsDrawn env (preWorld aspect0) ->
     fst (main env (preWorld aspect0)) = Js.Throw Js.TypeError) /\
    (textsDrawn env (preWorld aspect0) ->
     let w := loaded env aspect0 in
     time w = 0.01 /\ currentGesture w = none /\
     handDisplacement w = Vector3.mk 0 0 0 /\
     position w = Vector3.mk 0 0 0 /\
     camera w = mkCamera 75 aspect0 35 /\
     shapes w = generatedShapes env (mkCamera 75 aspect0 35) 0 /\
     draws w = drawsPerGeneration env /\
     forall i a, (i < PARTICLE_COUNT env)%nat -> (a < 3)%nat ->
       axis a (particle (posArray w) i)
       = axis a (nth i (generatedCloud env 0) Vector3.zero) * 0.08
         + sin (0.01 + INR i) * 0.04).
Proof.
  intros env aspect0.
  split; [exact (proj1 (main_run env aspect0))|]. split.
  - intros Hn. destruct (initShapes_throws env (preWorld aspect0) Hn) as [s [E _]].
    rewrite (main_throw _ _ _ _ E). reflexivity.
  - intros D w. unfold w, loaded. rewrite (main_exact env aspect0 D). cbn [snd].
    match goal with |- context [animated env ?W2] => set (W := W2) end.
    destruct (animated_frame env W) as [F1 [F2 [F3 [F4 [F5 [F6 [F7 _]]]]]]].
    rewrite F1, F2, F3, F4, F5, F6, F7.
    split; [unfold W; cbn [time set_posArray set_shapes set_draws preWorld]; lra|].
    do 2 (split; [reflexivity|]).
    split; [unfold W, Vector3.lerp, ELASTICITY; cbn; f_equal; lra|].
    do 3 (split; [reflexivity|]).
    intros i a Hi Ha.
    assert (HW : ready env W).
    { destruct (initShapes_run env (preWorld aspect0)) as [s [d [Hw [_ [Hready _]]]]].
      rewrite (initShapes_exact env _ D) in Hw, Hready. cbn [fst snd] in Hw, Hready.
      apply (f_equal shapes) in Hw. cbn [shapes set_shapes set_draws] in Hw.
      split; [|apply repeat_length].
      unfold W. cbn [shapes set_posArray set_shapes].
      change (generatedShapes env (mkCamera 75 aspect0 35) 0)
        with (generatedShapes env (camera (preWorld aspect0)) (draws (preWorld aspect0))).
      rewrite Hw. apply Hready. reflexivity. }
    rewrite (animated_particle_any env W i a HW Hi Ha).
    assert (E0 : axis a (particle (posArray W) i) = 0).
    { rewrite axis_particle by exact Ha. unfold W. cbn [posArray set_posArray].
      apply nth_repeat. }
    rewrite E0. destruct (selectTarget_shapeFor W) as [-> ->].
    unfold W.
    cbn [currentGesture shapes time set_posArray set_shapes set_draws preWorld
         shapeFor drifts randomPoints generatedShapes].
    unfold eased, SMOOTHING.
    replace (0 + 0.01 + INR i) with (0.01 + INR i) by lra. lra.
Qed.

Lemma script_load_witness :
  textsDrawn dotEnv (preWorld 1) /\
  fst (main dotEnv (preWorld 1)) = Js.Normal tt /\
  currentGesture (loaded dotEnv 1) = none.
Proof.
  assert (D : textsDrawn dotEnv (preWorld 1)) by apply dot_drawn.
  destruct (script_load dotEnv 1) as [T1 [_ T3]].
  split; [exact D|]. split; [apply T1; exact D|].
  cbv zeta in T3. exact (proj1 (proj2 (T3 D))).
Defined.

(* ===================================================================== *)
(** * Further properties: the material *)
(* ===================================================================== *)

Lemma materialAfter_snoc (isMobile : bool) (toColor : Z -> Color.t) (m : Material)
    (rendered : list (Gesture * R)) (f : Gesture * R) :
  materialAfter isMobile toColor m (rendered ++ [f])
  = updateMaterial isMobile toColor (fst f) (snd f)
      (materialAfter isMobile toColor m rendered).
Proof. unfold materialAfter. rewrite fold_left_app. reflexivity. Qed.

Lemma updateMaterial_size (isMobile : bool) (toColor : Z -> Color.t) (g : Gesture)
    (t : R) (m : Material) :
  material_size (updateMaterial isMobile toColor g t m)
  = if drifts g then material_size m
    else match g with
         | like => baseSize isMobile + sin (t * 5) * 0.05
         | _ => material_size m
         end.
Proof. destruct g; reflexivity. Qed.

Lemma materialAfter_size_base (isMobile : bool) (toColor : Z -> Color.t)
    (rendered : list (Gesture * R)) :
  Forall (fun f => fst f <> like) rendered ->
  material_size (materialAfter isMobile toColor (newMaterial isMobile toColor) rendered)
  = baseSize isMobile.
Proof.
  induction rendered as [|f rendered IH] using rev_ind; intros Hall.
  - reflexivity.
  - apply Forall_app in Hall. destruct Hall as [Hall Hf].
    inversion Hf as [|? ? Hf' _]; subst.
    rewrite materialAfter_snoc, updateMaterial_size.
    destruct (fst f) eqn:Eg; cbn [drifts]; try (apply IH; exact Hall).
    exfalso. apply Hf'. reflexivity.
Qed.

(** X18.  The point size stays within 0.05 of the device tier's base size
    (0.35 on mobile, 0.15 otherwise) whatever frames are rendered, hence
    positive.  Only a frame rendered under [like] writes it: under any
    other gesture the size keeps the value the last [like] frame gave it
    and is not reset to the base size. *)
Theorem material_size_bounded :
  forall (isMobile : bool) (toColor : Z -> Color.t) (rendered : list (Gesture * R)),
    let m := materialAfter isMobile toColor (newMaterial isMobile toColor) rendered in
    baseSize isMobile - 0.05 <= material_size m <= baseSize isMobile + 0.05 /\
    0 < material_size m /\
    (forall g t, g <> like ->
       material_size (updateMaterial isMobile toColor g t m) = material_size m) /\
    (forall t, material_size (updateMaterial isMobile toColor like t m)
               = baseSize isMobile + sin (t * 5) * 0.05) /\
    (Forall (fun f => fst f <> like) rendered -> material_size m = baseSize isMobile).
Proof.
  intros isMobile toColor rendered m.
  assert (B : baseSize isMobile - 0.05 <= material_size m <= baseSize isMobile + 0.05).
  { unfold m. induction rendered as [|f rendered IH] using rev_ind.
    - cbn. unfold baseSize. lra.
    - rewrite materialAfter_snoc, updateMaterial_size.
      pose proof (SIN_bound (snd f * 5)).
      destruct (fst f); cbn [drifts]; lra. }
  assert (Hb : 0.15 <= baseSize isMobile) by (unfold baseSize; destruct isMobile; lra).
  split; [exact B|]. split; [lra|]. split; [|split].
  - intros g t Hg. destruct g; try reflexivity. congruence.
  - intros t. reflexivity.
  - apply materialAfter_size_base.
Qed.

Lemma color_lerp_offset (c d : Color.t) :
  Color.r (Color.lerp c d 0.1) - Color.r d = (1 - 0.1) * (Color.r c - Color.r d) /\
  Color.g (Color.lerp c d 0.1) - Color.g d = (1 - 0.1) * (Color.g c - Color.g d) /\
  Color.b (Color.lerp c d 0.1) - Color.b d = (1 - 0.1) * (Color.b c - Color.b d).
Proof. unfold Color.lerp. cbn. repeat split; lra. Qed.

Lemma updateMaterial_color (isMobile : bool) (toColor : Z -> Color.t) (g : Gesture)
    (t : R) (m : Material) :
  material_color (updateMaterial isMobile toColor g t m)
  = Color.lerp (material_color m) (colorTarget toColor g) 0.1.
Proof. destruct g; reflexivity. Qed.

(** X19.  The colour eases toward the colour of the current gesture
    (like: 0xff4488, none: 0x666666, any other gesture: 0x00ccff): each
    frame covers 10% of what is left on every channel, so while the
    gesture is held for k frames the offset from that colour is 0.9^k
    times the initial one, whatever the clock. *)
Theorem material_color_eases :
  forall (isMobile : bool) (toColor : Z -> Color.t) (g : Gesture) (m : Material)
         (times : list R),
    let target := colorTarget toColor g in
    let c := material_color
               (materialAfter isMobile toColor m (map (fun t => (g, t)) times)) in
    Color.r c - Color.r target
      = (1 - 0.1) ^ length times * (Color.r (material_color m) - Color.r target) /\
    Color.g c - Color.g target
      = (1 - 0.1) ^ length times * (Color.g (material_color m) - Color.g target) /\
    Color.b c - Color.b target
      = (1 - 0.1) ^ length times * (Color.b (material_color m) - Color.b target).
Proof.
  intros isMobile toColor g m times target c. unfold c.
  induction times as [|t times IH] using rev_ind.
  - cbn. repeat split; lra.
  - rewrite map_app. cbn [map]. rewrite materialAfter_snoc. cbn [fst snd].
    rewrite updateMaterial_color. fold target.
    destruct (color_lerp_offset
                (material_color (materialAfter isMobile toColor m
                                   (map (fun t => (g, t)) times))) target)
      as [Hr [Hg Hb]].
    destruct IH as [IHr [IHg IHb]].
    rewrite Hr, Hg, Hb, IHr, IHg, IHb.
    rewrite length_app, Nat.add_comm. cbn [length Nat.add pow].
    repeat split; lra.
Qed.

(* ===================================================================== *)
(** * Worked examples *)
(* ===================================================================== *)

Lemma Js_lt_true (a b : R) : a < b -> Js.lt a b = true.
Proof. intros H. unfold Js.lt. destruct (Rlt_dec a b); [reflexivity|contradiction]. Qed.

Lemma Js_lt_false (a b : R) : ~ a < b -> Js.lt a b = false.
Proof. intros H. unfold Js.lt. destruct (Rlt_dec a b); [contradiction|reflexivity]. Qed.

(** A hand showing the peace sign is classified [peace], whatever the
    gesture was before. *)
Example peace_hand_is_peace (w : World) :
  currentGesture (snd (onResults (handFrame peaceHand []) w)) = peace.
Proof.
  destruct (onResults_hand w peaceHand []) as [wrist [_ E]]; [cbn; lia|].
  rewrite E. cbn [snd currentGesture set_currentGesture].
  unfold fingerExtended, peaceHand, handOfHeights. cbn [map nth_error lm_y].
  rewrite !Js_lt_true by lra. rewrite !Js_lt_false by lra. reflexivity.
Qed.

(** A hand with every landmark at the same height is a [fist], and the
    wrist at the centre of the image gives no displacement. *)
Example flat_hand_is_fist (w : World) :
  currentGesture (snd (onResults (handFrame flatHand []) w)) = fist /\
  Vector3.x (handDisplacement (snd (onResults (handFrame flatHand []) w))) = 0 /\
  Vector3.y (handDisplacement (snd (onResults (handFrame flatHand []) w))) = 0.
Proof.
  destruct (onResults_hand w flatHand []) as [wrist [Hw E]]; [cbn; lia|].
  rewrite E. cbn [snd currentGesture set_currentGesture handDisplacement
                  set_handDisplacement Vector3.x Vector3.y].
  injection Hw as <-.
  unfold fingerExtended, flatHand. cbn [repeat nth_error lm_x lm_y].
  rewrite !Js_lt_false by lra.
  split; [reflexivity|]. split; cbn [lm_x lm_y]; lra.
Qed.

(** All sixteen rows of the truth table of [classify]. *)
Example classify_truth_table :
  map (fun r => match r with (i, m, p, t) => classify i m p t end)
      [(false, false, false, false); (false, false, false, true);
       (false, false, true, false); (false, false, true, true);
       (false, true, false, false); (false, true, false, true);
       (false, true, true, false); (false, true, true, true);
       (true, false, false, false); (true, false, false, true);
       (true, false, true, false); (true, false, true, true);
       (true, true, false, false); (true, true, false, true);
       (true, true, true, false); (true, true, true, true)]
  = [fist; like; detected; like; detected; detected; detected; detected;
     detected; detected; rock; rock; peace; peace; detected; detected].
Proof. reflexivity. Qed.

(** Cycling three samples into seven points. *)
Example cycle_three_into_seven (a b c : Vector3.t) (w : World) :
  Array_from 7 (fun i => lift (cyclePoint [a; b; c] i)) w
  = (Js.Normal [a; b; c; a; b; c; a], w).
Proof. reflexivity. Qed.

(** Cycling no sample at all throws at once. *)
Example cycle_none_throws (w : World) :
  Array_from 7 (fun i => lift (cyclePoint [] i)) w = (Js.Throw Js.TypeError, w).
Proof. reflexivity. Qed.

(** One particle, one frame: the buffer (0, 0, 0) moves 8% of the way to
    the target (1, 2, 3). *)
Example one_particle_step :
  morphedArray [Vector3.mk 1 2 3] (fun _ => 0) [0%nat] [0; 0; 0]
  = [eased 1 0 0; eased 2 0 0; eased 3 0 0] /\
  eased 1 0 0 = 0.08 /\ eased 2 0 0 = 0.16 /\ eased 3 0 0 = 0.24.
Proof.
  split; [reflexivity|]. unfold eased, SMOOTHING. repeat split; lra.
Qed.
